(** * add_files_to_xcode.py: a shallow embedding and its verified properties

    The script registers Swift sources in an Xcode [project.pbxproj]:
    it scans five category directories, builds four families of text
    fragments, and splices them into the manifest in one pass over its
    lines.  Every definition below is a transcription of a piece of
    [src/add_files_to_xcode.py]; line numbers refer to that file. *)

From Stdlib Require Import List String Ascii ZArith NArith Lia Bool Arith.
From Stdlib Require Import Sorted Permutation DecimalString DecimalN.
From Equations Require Import Equations.
Import ListNotations.

Open Scope string_scope.
Open Scope list_scope.

(** ** Python exceptions the script can raise after the manifest is read *)

Inductive exn : Type :=
| IndexError   (* [lines[i]] with [i = len(lines)] *)
| KeyError.    (* [group_entries[directory]] on a missing key *)

Inductive res (A : Type) : Type :=
| Ok (a : A)
| Raise (e : exn).
Arguments Ok {A} a.
Arguments Raise {A} e.

Definition bind {A B} (m : res A) (k : A -> res B) : res B :=
  match m with
  | Ok a => k a
  | Raise e => Raise e
  end.

Notation "x <- m ;; k" := (bind m (fun x => k))
  (at level 61, m at next level, right associativity).

Definition emit (pre : list string) (m : res (list string)) : res (list string) :=
  out <- m ;; Ok (pre ++ out).

(** ** Strings *)

Module Str.

Definition TAB : string := String (ascii_of_nat 9) EmptyString.
Definition NL : string := String (ascii_of_nat 10) EmptyString.
Definition DQ : string := String (ascii_of_nat 34) EmptyString.

(** Python's [needle in hay] on [str]. *)
Fixpoint contains (needle hay : string) : bool :=
  if prefix needle hay then true
  else match hay with
       | EmptyString => false
       | String _ hay' => contains needle hay'
       end.

(** [fnmatch] of the pattern [*suffix]: the name ends with [suffix]. *)
Fixpoint ends_with (suffix s : string) : bool :=
  if String.eqb s suffix then true
  else match s with
       | EmptyString => false
       | String _ s' => ends_with suffix s'
       end.

(** Python's [x in [a, b, ...]] on a list of [str]. *)
Definition mem (x : string) (l : list string) : bool :=
  existsb (String.eqb x) l.

Fixpoint zeros (k : nat) : string :=
  match k with
  | O => EmptyString
  | S k' => String "0" (zeros k')
  end.

Definition digits (n : N) : string :=
  NilEmpty.string_of_uint (N.to_uint n).

(** The format specification [:020d]: decimal, zero-filled to width 20,
    the sign (if any) before the zeros and counted in the width. *)
Definition format_020d (n : Z) : string :=
  let body := digits (Z.abs_N n) in
  if (n <? 0)%Z
  then "-" ++ zeros (19 - String.length body) ++ body
  else zeros (20 - String.length body) ++ body.

End Str.
Import Str.

(** ** Identifiers (lines 12-15) *)

Definition generate_id (prefix : string) (counter : Z) : string :=
  prefix ++ format_020d counter.

(** ** Discovery (lines 22-33)

    What the script sees of the file system is, for each name under
    [inc_dir], whether it exists and, when it is a directory, its entries.
    [Path.exists] is true for a plain file too; [Path.glob] on a path that
    is not a directory yields nothing. *)

Inductive node : Type :=
| Missing
| NotDir
| Dir (entries : list string).

Definition filesystem : Type := string -> node.

Definition exists_ (n : node) : bool :=
  match n with
  | Missing => false
  | NotDir | Dir _ => true
  end.

Definition glob_swift (n : node) : list string :=
  match n with
  | Dir entries => filter (ends_with ".swift") entries
  | Missing | NotDir => []
  end.

(** [sorted]: the paths of one directory compare as their names do, and
    [str] compares code point by code point, as [String.leb] does on bytes.
    The order is total and antisymmetric, so the sorted list is unique. *)
Fixpoint insert (x : string) (l : list string) : list string :=
  match l with
  | [] => [x]
  | y :: l' => if String.leb x y then x :: l else y :: insert x l'
  end.

Fixpoint sorted (l : list string) : list string :=
  match l with
  | [] => []
  | x :: l' => insert x (sorted l')
  end.

Definition directories : list string :=
  ["Views"; "ViewModels"; "Models"; "Services"; "Components"].

Definition skip_list : list string := ["IncApp.swift"; "ContentView.swift"].

Definition source_file : Type := (string * string)%type.

(** Lines 25-29. *)
Definition swift_files (fs : filesystem) : list source_file :=
  flat_map (fun directory =>
              if exists_ (fs directory)
              then map (fun name => (directory, name)) (sorted (glob_swift (fs directory)))
              else [])
           directories.

(** Lines 32-33. *)
Definition files_to_add (fs : filesystem) : list source_file :=
  filter (fun df => negb (mem (snd df) skip_list)) (swift_files fs).

(** ** Fragment generation (lines 42-70) *)

(** A Python [dict] from [str] to a list of lines, in insertion order. *)
Definition dict : Type := list (string * list string).

Fixpoint dict_get (k : string) (d : dict) : res (list string) :=
  match d with
  | [] => Raise KeyError
  | (k', v) :: d' => if String.eqb k k' then Ok v else dict_get k d'
  end.

(** [d[k].append(x)] *)
Fixpoint dict_append (k : string) (x : string) (d : dict) : res dict :=
  match d with
  | [] => Raise KeyError
  | (k', v) :: d' =>
      if String.eqb k k' then Ok ((k', v ++ [x]) :: d')
      else d'' <- dict_append k x d' ;; Ok ((k', v) :: d'')
  end.

(** Lines 55-57. *)
Definition file_ref_entry (file_ref_id filename : string) : string :=
  TAB ++ TAB ++ file_ref_id ++ " /* " ++ filename ++ " */ = "
  ++ "{isa = PBXFileReference; lastKnownFileType = sourcecode.swift; "
  ++ "path = " ++ filename ++ "; sourceTree = " ++ DQ ++ "<group>" ++ DQ ++ "; };" ++ NL.

(** Lines 62-63. *)
Definition build_file_entry (build_file_id file_ref_id filename : string) : string :=
  TAB ++ TAB ++ build_file_id ++ " /* " ++ filename ++ " in Sources */ = "
  ++ "{isa = PBXBuildFile; fileRef = " ++ file_ref_id ++ " /* " ++ filename ++ " */; };" ++ NL.

(** Line 67. *)
Definition sources_entry (build_file_id filename : string) : string :=
  TAB ++ TAB ++ TAB ++ TAB ++ build_file_id ++ " /* " ++ filename ++ " in Sources */," ++ NL.

(** Line 70. *)
Definition group_entry (file_ref_id filename : string) : string :=
  TAB ++ TAB ++ TAB ++ TAB ++ file_ref_id ++ " /* " ++ filename ++ " */," ++ NL.

(** The locals of [main] that the generation loop updates. *)
Record gen_state : Type := mkGen {
  file_ref_entries : list string;
  build_file_entries : list string;
  sources_entries : list string;
  group_entries : dict;
  counter : Z
}.

(** Lines 42-47. *)
Definition gen_init : gen_state :=
  {| file_ref_entries := [];
     build_file_entries := [];
     sources_entries := [];
     group_entries := map (fun dir => (dir, [])) directories;
     counter := 5000 |}.

(** One iteration of the loop of lines 48-70. *)
Definition gen_step (st : gen_state) (file : source_file) : res gen_state :=
  let '(directory, filename) := file in
  let file_ref_id := generate_id "BB" (counter st) in
  let build_file_id := generate_id "CC" (counter st) in
  let counter' := (counter st + 1)%Z in
  group_entries' <- dict_append directory (group_entry file_ref_id filename) (group_entries st) ;;
  Ok {| file_ref_entries := file_ref_entries st ++ [file_ref_entry file_ref_id filename];
        build_file_entries := build_file_entries st ++ [build_file_entry build_file_id file_ref_id filename];
        sources_entries := sources_entries st ++ [sources_entry build_file_id filename];
        group_entries := group_entries';
        counter := counter' |}.

Fixpoint gen_loop (st : gen_state) (files : list source_file) : res gen_state :=
  match files with
  | [] => Ok st
  | file :: files' => st' <- gen_step st file ;; gen_loop st' files'
  end.

Definition generate (files : list source_file) : res gen_state :=
  gen_loop gen_init files.

(** ** Manifest splicing (lines 73-159) *)

Definition begin_build_file : string := "/* Begin PBXBuildFile section */".
Definition end_build_file : string := "/* End PBXBuildFile section */".
Definition begin_file_ref : string := "/* Begin PBXFileReference section */".
Definition end_file_ref : string := "/* End PBXFileReference section */".
Definition end_group : string := "/* End PBXGroup section */".
Definition sources_phase : string := "AA9999940000000000000001 /* Sources */ = {".
Definition files_open : string := "files = (".
Definition list_close : string := ");".

(** Lines 99-101: a folder reference to one of the five directories. *)
Definition is_folder_ref (l : string) : bool :=
  contains "lastKnownFileType = folder;" l
  && existsb (fun dir => contains ("/* " ++ dir ++ " */")%string l)
       ["Models"; "ViewModels"; "Views"; "Services"; "Components"].

(** Lines 115-121, in the dict's iteration (insertion) order. *)
Definition dir_id_map : list (string * string) :=
  [("Models", "AA0000100000000000000001");
   ("ViewModels", "AA0000110000000000000001");
   ("Views", "AA0000120000000000000001");
   ("Services", "AA0000130000000000000001");
   ("Components", "AA0000140000000000000001")].

(** Lines 125-132. *)
Definition group_block (directory group_id : string) (children : list string) : list string :=
  [(TAB ++ TAB ++ group_id ++ " /* " ++ directory ++ " */ = {" ++ NL)%string;
   (TAB ++ TAB ++ TAB ++ "isa = PBXGroup;" ++ NL)%string;
   (TAB ++ TAB ++ TAB ++ "children = (" ++ NL)%string]
  ++ children
  ++ [(TAB ++ TAB ++ TAB ++ ");" ++ NL)%string;
      (TAB ++ TAB ++ TAB ++ "path = " ++ directory ++ ";" ++ NL)%string;
      (TAB ++ TAB ++ TAB ++ "sourceTree = " ++ DQ ++ "<group>" ++ DQ ++ ";" ++ NL)%string;
      (TAB ++ TAB ++ "};" ++ NL)%string].

(** The inner loop of lines 83-85 (and 143-145, 149-151):
    [while i < len(lines) and marker not in lines[i]], copying.
    The result is the lines appended and [lines[i:]] at loop exit. *)
Fixpoint copy_until (marker : string) (ls : list string) : list string * list string :=
  match ls with
  | [] => ([], [])
  | l :: ls' =>
      if contains marker l then ([], ls)
      else let (copied, rest) := copy_until marker ls' in (l :: copied, rest)
  end.

(** The inner loop of lines 97-105, which skips folder references. *)
Fixpoint copy_refs_until (ls : list string) : list string * list string :=
  match ls with
  | [] => ([], [])
  | l :: ls' =>
      if contains end_file_ref l then ([], ls)
      else let (copied, rest) := copy_refs_until ls' in
           if is_folder_ref l then (copied, rest) else (l :: copied, rest)
  end.

(** Pairs a value with the equation that it is that value, so that the
    termination proof of the outer loop can use the result of an iteration. *)
Definition inspect {A : Type} (x : A) : {y : A | x = y} := exist _ x eq_refl.

Section Splice.

(** The fragments built by the generation loop. *)
Variable g : gen_state.

(** The loop of lines 123-132 over [dir_id_map.items()]. *)
Fixpoint group_blocks (m : list (string * string)) : res (list string) :=
  match m with
  | [] => Ok []
  | (directory, group_id) :: m' =>
      children <- dict_get directory (group_entries g) ;;
      later <- group_blocks m' ;;
      Ok (match children with
          | [] => later
          | _ :: _ => group_block directory group_id children ++ later
          end)
  end.

(** One iteration of the outer [while] (lines 76-159), entered with
    [line = lines[i]] and [rest = lines[i+1:]]: the lines appended to
    [output_lines] and [lines[i':]] for the new index [i']. *)
Definition step (line : string) (rest : list string) : res (list string * list string) :=
  if contains begin_build_file line then
    let (copied, r) := copy_until end_build_file rest in
    match r with
    | [] => Raise IndexError
    | end_line :: r' => Ok (line :: copied ++ build_file_entries g ++ [end_line], r')
    end
  else if contains begin_file_ref line then
    let (copied, r) := copy_refs_until rest in
    match r with
    | [] => Raise IndexError
    | end_line :: r' => Ok (line :: copied ++ file_ref_entries g ++ [end_line], r')
    end
  else if contains end_group line then
    blocks <- group_blocks dir_id_map ;;
    Ok (blocks ++ [line], rest)
  else if contains sources_phase line then
    let (head, r1) := copy_until files_open rest in
    match r1 with
    | [] => Raise IndexError
    | files_line :: r2 =>
        let (body, r3) := copy_until list_close r2 in
        match r3 with
        | [] => Raise IndexError
        | close_line :: r4 =>
            Ok (line :: head ++ [files_line] ++ body ++ sources_entries g ++ [close_line], r4)
        end
    end
  else Ok ([line], rest).

(** The outer loop, on [lines[i:]]; its value is what is appended to
    [output_lines] from index [i] on, or the exception raised. *)
Equations? main_loop (lines : list string) : res (list string)
  by wf (List.length lines) lt :=
main_loop [] := Ok [];
main_loop (line :: rest) with inspect (step line rest) := {
  | exist _ (Ok (out, rest')) Hstep => emit out (main_loop rest');
  | exist _ (Raise e) _ => Raise e }.
Proof.
  (* an iteration leaves a suffix of [rest] *)
  assert (Hcopy : forall marker ls,
             List.length (snd (copy_until marker ls)) <= List.length ls).
  { intros marker ls. induction ls as [|l ls IH]; simpl; [lia|].
    destruct (contains marker l); simpl; [lia|].
    destruct (copy_until marker ls); simpl in *; lia. }
  assert (Hrefs : forall ls,
             List.length (snd (copy_refs_until ls)) <= List.length ls).
  { intros ls. induction ls as [|l ls IH]; simpl; [lia|].
    destruct (contains end_file_ref l); simpl; [lia|].
    destruct (copy_refs_until ls); destruct (is_folder_ref l); simpl in *; lia. }
  simpl. unfold step in Hstep.
  destruct (contains begin_build_file line).
  { pose proof (Hcopy end_build_file rest) as H.
    destruct (copy_until end_build_file rest) as [c [|e r]]; [discriminate|].
    injection Hstep as _ <-. simpl in H. lia. }
  destruct (contains begin_file_ref line).
  { pose proof (Hrefs rest) as H.
    destruct (copy_refs_until rest) as [c [|e r]]; [discriminate|].
    injection Hstep as _ <-. simpl in H. lia. }
  destruct (contains end_group line).
  { destruct (group_blocks dir_id_map); simpl in Hstep; [|discriminate].
    injection Hstep as _ <-. lia. }
  destruct (contains sources_phase line).
  { pose proof (Hcopy files_open rest) as H.
    destruct (copy_until files_open rest) as [c [|e r]]; [discriminate|].
    pose proof (Hcopy list_close r) as H'.
    destruct (copy_until list_close r) as [c' [|e' r']]; [discriminate|].
    injection Hstep as _ <-. simpl in *. lia. }
  injection Hstep as _ <-. lia.
Qed.

End Splice.

(** The whole of [main] after the manifest has been read: the new content
    of the file, or the exception that ends the run before it is written. *)
Definition main (fs : filesystem) (lines : list string) : res (list string) :=
  g <- generate (files_to_add fs) ;;
  main_loop g lines.

(** * Vocabulary of the statements

    The definitions from here to the properties do not model the script:
    they are the terms in which its behaviour is stated below. *)

(** ** Regions of a manifest

    A description of the manifest that does not mention the loops: the
    lines one iteration of the outer loop consumes form a _segment_, which
    is a single line or a whole marker-delimited region.  [seg_ok] says
    which lines may stand where, [seg_lines] gives the lines of a segment
    and [seg_output] what the pass is expected to write for it. *)

Inductive segment : Type :=
| Plain (line : string)
| BuildFiles (begin_line : string) (body : list string) (end_line : string)
| FileRefs (begin_line : string) (body : list string) (end_line : string)
| GroupEnd (line : string)
| SourcesPhase (begin_line : string) (head : list string) (files_line : string)
               (body : list string) (close_line : string).

Definition lacks (marker line : string) : bool := negb (contains marker line).

Definition seg_ok (s : segment) : bool :=
  match s with
  | Plain l =>
      lacks begin_build_file l && lacks begin_file_ref l
      && lacks end_group l && lacks sources_phase l
  | BuildFiles b body e =>
      contains begin_build_file b
      && forallb (lacks end_build_file) body && contains end_build_file e
  | FileRefs b body e =>
      lacks begin_build_file b && contains begin_file_ref b
      && forallb (lacks end_file_ref) body && contains end_file_ref e
  | GroupEnd l =>
      lacks begin_build_file l && lacks begin_file_ref l && contains end_group l
  | SourcesPhase b head f body c =>
      lacks begin_build_file b && lacks begin_file_ref b
      && lacks end_group b && contains sources_phase b
      && forallb (lacks files_open) head && contains files_open f
      && forallb (lacks list_close) body && contains list_close c
  end.

Definition seg_lines (s : segment) : list string :=
  match s with
  | Plain l => [l]
  | BuildFiles b body e => b :: body ++ [e]
  | FileRefs b body e => b :: body ++ [e]
  | GroupEnd l => [l]
  | SourcesPhase b head f body c => b :: head ++ [f] ++ body ++ [c]
  end.

Definition kept (l : string) : bool := negb (is_folder_ref l).

(** The group blocks of a run in which no key is missing. *)
Definition blocks (g : gen_state) : list string :=
  match group_blocks g dir_id_map with
  | Ok b => b
  | Raise _ => []
  end.

Definition keys_ok (g : gen_state) : bool :=
  match group_blocks g dir_id_map with
  | Ok _ => true
  | Raise _ => false
  end.

Definition seg_output (g : gen_state) (s : segment) : list string :=
  match s with
  | Plain l => [l]
  | BuildFiles b body e => b :: body ++ build_file_entries g ++ [e]
  | FileRefs b body e => b :: filter kept body ++ file_ref_entries g ++ [e]
  | GroupEnd l => blocks g ++ [l]
  | SourcesPhase b head f body c =>
      b :: head ++ [f] ++ body ++ sources_entries g ++ [c]
  end.

Definition is_group_end (s : segment) : bool :=
  match s with GroupEnd _ => true | _ => false end.

Definition is_build_files (s : segment) : bool :=
  match s with BuildFiles _ _ _ => true | _ => false end.
Definition is_file_refs (s : segment) : bool :=
  match s with FileRefs _ _ _ => true | _ => false end.
Definition is_sources (s : segment) : bool :=
  match s with SourcesPhase _ _ _ _ _ => true | _ => false end.

Definition manifest (segs : list segment) : list string := flat_map seg_lines segs.

Definition patched (g : gen_state) (segs : list segment) : list string :=
  flat_map (seg_output g) segs.

(** ** Lines added and lines left out *)

Definition seg_inserted (g : gen_state) (s : segment) : list string :=
  match s with
  | Plain _ => []
  | BuildFiles _ _ _ => build_file_entries g
  | FileRefs _ _ _ => file_ref_entries g
  | GroupEnd _ => blocks g
  | SourcesPhase _ _ _ _ _ => sources_entries g
  end.

(** The folder references that lie in a file-reference region. *)
Definition seg_dropped (s : segment) : list string :=
  match s with
  | FileRefs _ body _ => filter is_folder_ref body
  | _ => []
  end.

Definition inserted (g : gen_state) (segs : list segment) : list string :=
  flat_map (seg_inserted g) segs.

Definition dropped (segs : list segment) : list string :=
  flat_map seg_dropped segs.

Definition occurrences (p : segment -> bool) (segs : list segment) : nat :=
  List.length (filter p segs).

(** A segment with only its folder references left out. *)
Definition seg_kept (s : segment) : list string :=
  match s with
  | FileRefs b body e => b :: filter (fun l => negb (is_folder_ref l)) body ++ [e]
  | _ => seg_lines s
  end.

(** ** The edits the pass may make

    Where the scan stands: outside every region, between the markers of
    the build-file table or of the file-reference table, or in a sources
    phase, before or after its [files = (] line. *)

Inductive mode : Type :=
| Outside
| InBuildFiles
| InFileRefs
| SourcesHead
| SourcesFiles.

(** Where the scan stands after the line [l], met in mode [m]. *)
Definition mode_after (m : mode) (l : string) : mode :=
  match m with
  | Outside =>
      if contains begin_build_file l then InBuildFiles
      else if contains begin_file_ref l then InFileRefs
      else if contains end_group l then Outside
      else if contains sources_phase l then SourcesHead
      else Outside
  | InBuildFiles => if contains end_build_file l then Outside else InBuildFiles
  | InFileRefs => if contains end_file_ref l then Outside else InFileRefs
  | SourcesHead => if contains files_open l then SourcesFiles else SourcesHead
  | SourcesFiles => if contains list_close l then Outside else SourcesFiles
  end.

(** The four injection points: the line [l], met in mode [m], before which
    fragments go, and the fragments that go there.  They are the End line
    of a build-file table that was entered, the End line of a
    file-reference table that was entered, an End PBXGroup line met outside
    every region, and the first closing line after the [files = (] line of
    a sources phase. *)
Definition injected (g : gen_state) (m : mode) (l : string) : option (list string) :=
  match m with
  | Outside =>
      if contains begin_build_file l then None
      else if contains begin_file_ref l then None
      else if contains end_group l then Some (blocks g)
      else None
  | InBuildFiles =>
      if contains end_build_file l then Some (build_file_entries g) else None
  | InFileRefs =>
      if contains end_file_ref l then Some (file_ref_entries g) else None
  | SourcesHead => None
  | SourcesFiles =>
      if contains list_close l then Some (sources_entries g) else None
  end.

(** The only lines left out: folder references to one of the five
    directories, between the markers of the file-reference table. *)
Definition drops (m : mode) (l : string) : bool :=
  match m with
  | InFileRefs => negb (contains end_file_ref l) && is_folder_ref l
  | _ => false
  end.

(** [spliced g m lines out]: from mode [m], [out] is [lines] with the
    fragments put before each injection point, the droppable lines left
    out and every other line copied in place, and the scan ends outside
    every region. *)
Inductive spliced (g : gen_state) : mode -> list string -> list string -> Prop :=
| spliced_nil : spliced g Outside [] []
| spliced_copy m l ls out :
    injected g m l = None ->
    drops m l = false ->
    spliced g (mode_after m l) ls out ->
    spliced g m (l :: ls) (l :: out)
| spliced_drop m l ls out :
    drops m l = true ->
    spliced g m ls out ->
    spliced g m (l :: ls) out
| spliced_inject m l new ls out :
    injected g m l = Some new ->
    spliced g (mode_after m l) ls out ->
    spliced g m (l :: ls) (new ++ l :: out).

(** [subsequence xs ys]: [xs] is [ys] with some elements left out. *)
Inductive subsequence : list string -> list string -> Prop :=
| subsequence_nil : subsequence [] []
| subsequence_keep x xs ys : subsequence xs ys -> subsequence (x :: xs) (x :: ys)
| subsequence_skip y xs ys : subsequence xs ys -> subsequence xs (y :: ys).

(** ** Identifiers and counts *)

(** Reads back the digits written by [format_020d]. *)
Definition read_decimal (s : string) : option N :=
  option_map N.of_uint (NilEmpty.uint_of_string s).

(** The counter value with which each file is processed. *)
Fixpoint numbered (c : Z) (files : list source_file) : list (Z * source_file) :=
  match files with
  | [] => []
  | file :: files' => (c, file) :: numbered (c + 1) files'
  end.

(** The two identifiers made from one counter value. *)
Definition ids_of (cf : Z * source_file) : list string :=
  [generate_id "BB" (fst cf); generate_id "CC" (fst cf)].

(** The group-child fragments of all categories together. *)
Definition group_total (d : dict) : nat :=
  list_sum (map (fun kv => List.length (snd kv)) d).

(** ** Discovery *)

Definition le_name (a b : string) : Prop := String.leb a b = true.

(** The names contributed by one directory. *)
Definition listing (fs : filesystem) (directory : string) : list string :=
  if exists_ (fs directory)
  then filter (fun name => negb (mem name skip_list)) (sorted (glob_swift (fs directory)))
  else [].

(** The names of a directory that discovery keeps, before sorting. *)
Definition wanted (n : node) : list string :=
  filter (fun name => negb (mem name skip_list)) (glob_swift n).

(** ** Group blocks, as the specification words them *)

Definition children_of (g : gen_state) (category : string) : list string :=
  match dict_get category (group_entries g) with
  | Ok children => children
  | Raise _ => []
  end.

(** One block: open brace, type tag, children-list opener, the category's
    group-child fragments, children-list closer, the category name as
    path, source-tree tag, closing brace; nothing for a category without
    group-child fragments. *)
Definition spec_group_block (g : gen_state) (category group_id : string) : list string :=
  match children_of g category with
  | [] => []
  | _ :: _ =>
      [(TAB ++ TAB ++ group_id ++ " /* " ++ category ++ " */ = {" ++ NL)%string;
       (TAB ++ TAB ++ TAB ++ "isa = PBXGroup;" ++ NL)%string;
       (TAB ++ TAB ++ TAB ++ "children = (" ++ NL)%string]
      ++ children_of g category
      ++ [(TAB ++ TAB ++ TAB ++ ");" ++ NL)%string;
          (TAB ++ TAB ++ TAB ++ "path = " ++ category ++ ";" ++ NL)%string;
          (TAB ++ TAB ++ TAB ++ "sourceTree = " ++ DQ ++ "<group>" ++ DQ ++ ";" ++ NL)%string;
          (TAB ++ TAB ++ "};" ++ NL)%string]
  end.

Definition spec_group_blocks (g : gen_state) : list string :=
  spec_group_block g "Models" "AA0000100000000000000001"
  ++ spec_group_block g "ViewModels" "AA0000110000000000000001"
  ++ spec_group_block g "Views" "AA0000120000000000000001"
  ++ spec_group_block g "Services" "AA0000130000000000000001"
  ++ spec_group_block g "Components" "AA0000140000000000000001".

(** ** A second run *)

(** What the second run needs of the fragments: none of them carries the
    marker that closes the region it was put in, the file-reference
    fragments are not themselves folder references, and no line of a group
    block opens a region. *)
Definition inert (g : gen_state) : bool :=
  forallb (lacks end_build_file) (build_file_entries g)
  && forallb (fun l => lacks end_file_ref l && kept l) (file_ref_entries g)
  && forallb (fun l => seg_ok (Plain l)) (blocks g)
  && forallb (lacks list_close) (sources_entries g).

(** The segments of the output of a first run. *)
Definition resegment (g : gen_state) (s : segment) : list segment :=
  match s with
  | Plain l => [Plain l]
  | BuildFiles b body e => [BuildFiles b (body ++ build_file_entries g) e]
  | FileRefs b body e => [FileRefs b (filter kept body ++ file_ref_entries g) e]
  | GroupEnd l => map Plain (blocks g) ++ [GroupEnd l]
  | SourcesPhase b head f body c =>
      [SourcesPhase b head f (body ++ sources_entries g) c]
  end.

(** The output with every fragment list written twice. *)
Definition seg_output_twice (g : gen_state) (s : segment) : list string :=
  match s with
  | Plain l => [l]
  | BuildFiles b body e =>
      b :: body ++ build_file_entries g ++ build_file_entries g ++ [e]
  | FileRefs b body e =>
      b :: filter kept body ++ file_ref_entries g ++ file_ref_entries g ++ [e]
  | GroupEnd l => blocks g ++ blocks g ++ [l]
  | SourcesPhase b head f body c =>
      b :: head ++ [f] ++ body ++ sources_entries g ++ sources_entries g ++ [c]
  end.

(** ** File names and marker text

    [lacks_char c s]: the character [c] does not occur in [s].  A name is
    plain when it has neither a slash nor a semicolon; an identifier-like
    string has none of the characters with which a marker starts.
    [straddles c m t] lists the ways a marker [m] could begin inside a
    string without [c] and end in the text [t] that follows it. *)

Fixpoint lacks_char (c : ascii) (s : string) : bool :=
  match s with
  | EmptyString => true
  | String a s' => negb (Ascii.eqb a c) && lacks_char c s'
  end.

Fixpoint drop (j : nat) (s : string) : string :=
  match j, s with
  | S j', String _ s' => drop j' s'
  | _, _ => s
  end.

Fixpoint first_index (c : ascii) (m : string) : nat :=
  match m with
  | EmptyString => 0
  | String a m' => if Ascii.eqb a c then 0 else S (first_index c m')
  end.

Definition straddles (c : ascii) (m t : string) : bool :=
  existsb (fun j => prefix (drop j m) t) (seq 0 (S (first_index c m))).

Definition plain_name (name : string) : bool :=
  lacks_char "/" name && lacks_char ";" name.

Definition id_like (s : string) : bool :=
  lacks_char "/" s && lacks_char "A" s && lacks_char ")" s && lacks_char "l" s.

(** Every discovered file has a plain name. *)
Definition plain_names (fs : filesystem) : bool :=
  forallb (fun file => plain_name (snd file)) (files_to_add fs).

(** Every line stored in the dict satisfies [P]. *)
Definition all_values (P : string -> Prop) (d : dict) : Prop :=
  Forall (fun kv => Forall P (snd kv)) d.

(** ** Worked runs *)

(** A line of the manifest as [readlines] returns it. *)
Definition ln (s : string) : string := s ++ NL.

(** The locals after the generation loop has run on
    [[("Views", a); ("Models", b)]]. *)
Definition two_files_gen (a b : string) : gen_state :=
  {| file_ref_entries :=
       [file_ref_entry (generate_id "BB" 5000) a;
        file_ref_entry (generate_id "BB" 5001) b];
     build_file_entries :=
       [build_file_entry (generate_id "CC" 5000) (generate_id "BB" 5000) a;
        build_file_entry (generate_id "CC" 5001) (generate_id "BB" 5001) b];
     sources_entries :=
       [sources_entry (generate_id "CC" 5000) a;
        sources_entry (generate_id "CC" 5001) b];
     group_entries :=
       [("Views", [group_entry (generate_id "BB" 5000) a]);
        ("ViewModels", []);
        ("Models", [group_entry (generate_id "BB" 5001) b]);
        ("Services", []);
        ("Components", [])];
     counter := 5002 |}.

Definition sample_fs : filesystem := fun directory =>
  if String.eqb directory "Views" then Dir ["A.swift"]
  else if String.eqb directory "Models" then Dir ["notes.txt"; "B.swift"]
  else Missing.

Definition empty_fs : filesystem := fun _ => Missing.

Definition sample_gen : gen_state := two_files_gen "A.swift" "B.swift".

Definition build_region : segment :=
  BuildFiles (ln "/* Begin PBXBuildFile section */")
    [ln "AA01 /* IncApp.swift in Sources */ = {isa = PBXBuildFile; fileRef = AA02 /* IncApp.swift */; };"]
    (ln "/* End PBXBuildFile section */").

Definition file_ref_region : segment :=
  FileRefs (ln "/* Begin PBXFileReference section */")
    [ln "AA02 /* IncApp.swift */ = {isa = PBXFileReference; lastKnownFileType = sourcecode.swift; path = IncApp.swift; };";
     ln "AA03 /* Models */ = {isa = PBXFileReference; lastKnownFileType = folder; path = Models; };"]
    (ln "/* End PBXFileReference section */").

Definition clean_file_ref_region : segment :=
  FileRefs (ln "/* Begin PBXFileReference section */")
    [ln "AA02 /* IncApp.swift */ = {isa = PBXFileReference; lastKnownFileType = sourcecode.swift; path = IncApp.swift; };"]
    (ln "/* End PBXFileReference section */").

Definition sources_region : segment :=
  SourcesPhase (ln "AA9999940000000000000001 /* Sources */ = {")
    [ln "isa = PBXSourcesBuildPhase;"]
    (ln "files = (")
    [ln "AA01 /* IncApp.swift in Sources */,"]
    (ln ");").

Definition sample_segs : list segment :=
  [Plain (ln "// !$*UTF8*$!"); build_region; Plain NL; file_ref_region;
   Plain (ln "/* Begin PBXGroup section */");
   GroupEnd (ln "/* End PBXGroup section */");
   sources_region; Plain (ln "};")].

Definition clean_segs : list segment :=
  [Plain (ln "// !$*UTF8*$!"); build_region; clean_file_ref_region;
   GroupEnd (ln "/* End PBXGroup section */"); sources_region].

Definition no_sources_segs : list segment :=
  [Plain (ln "// !$*UTF8*$!"); build_region; file_ref_region;
   GroupEnd (ln "/* End PBXGroup section */"); Plain (ln "};")].

(** An End PBXGroup line between the markers of the build-file region. *)
Definition swallowed_manifest : list string :=
  [ln "/* Begin PBXBuildFile section */";
   ln "/* End PBXGroup section */";
   ln "/* End PBXBuildFile section */"].

Definition count_lines (marker : string) (ls : list string) : nat :=
  List.length (filter (contains marker) ls).

(** How many lines of [ls] are equal to [l]. *)
Definition occurs (l : string) (ls : list string) : nat :=
  List.length (filter (String.eqb l) ls).

(** ** Entries and their kinds *)

(** What a directory entry is.  [glob] matches on names and does not look
    at it. *)
Inductive kind : Type :=
| RegularFile
| Subdirectory.

(** A path under [inc_dir], its entries listed with their kinds. *)
Inductive typed_node : Type :=
| TMissing
| TNotDir
| TDir (entries : list (string * kind)).

(** What [Path.exists] and [Path.glob] see of it. *)
Definition seen (n : typed_node) : node :=
  match n with
  | TMissing => Missing
  | TNotDir => NotDir
  | TDir entries => Dir (map fst entries)
  end.

(** Lines 22-33 on a file system whose entries have kinds. *)
Definition discover (tfs : string -> typed_node) : list source_file :=
  files_to_add (fun directory => seen (tfs directory)).

(** [Inc/Views] holds the file [A.swift] and the directory [Dir.swift]. *)
Definition views_with_subdirectory : string -> typed_node := fun directory =>
  if String.eqb directory "Views"
  then TDir [("A.swift", RegularFile); ("Dir.swift", Subdirectory)]
  else TMissing.

(** ** Vocabulary of the further properties *)

(** Reads the counter back from an identifier: the prefix is checked and
    taken off, the rest is read as a decimal number. *)
Definition decode_id (prefix s : string) : option N :=
  if String.prefix prefix s
  then read_decimal (drop (String.length prefix) s)
  else None.

(** The numbered file belongs to [category]. *)
Definition in_category (category : string) (cf : Z * source_file) : bool :=
  String.eqb (fst (snd cf)) category.

(** Two views of one path that differ at most in the order in which a
    directory lists its entries. *)
Definition same_entries (n n' : node) : Prop :=
  match n, n' with
  | Missing, Missing => True
  | NotDir, NotDir => True
  | Dir entries, Dir entries' => Permutation entries entries'
  | _, _ => False
  end.

(** The lines after the first line that contains [marker], if there is one. *)
Fixpoint after (marker : string) (ls : list string) : option (list string) :=
  match ls with
  | [] => None
  | l :: ls' => if contains marker l then Some ls' else after marker ls'
  end.

(** [line] opens a region that the lines after it do not close: a
    build-file or file-reference region without its End line, or a sources
    phase without a [files = (] line or without a closing line after it. *)
Definition unclosed (line : string) (rest : list string) : bool :=
  if contains begin_build_file line then forallb (lacks end_build_file) rest
  else if contains begin_file_ref line then forallb (lacks end_file_ref) rest
  else if contains end_group line then false
  else if contains sources_phase line then
    match after files_open rest with
    | None => true
    | Some rest' => forallb (lacks list_close) rest'
    end
  else false.

(** [sample_fs] with the entries of Models listed in the other order. *)
Definition reordered_fs : filesystem := fun directory =>
  if String.eqb directory "Views" then Dir ["A.swift"]
  else if String.eqb directory "Models" then Dir ["B.swift"; "notes.txt"]
  else Missing.

(** A manifest without a file-reference region. *)
Definition no_file_ref_segs : list segment :=
  [Plain (ln "// !$*UTF8*$!"); build_region;
   Plain (ln "AA03 /* Models */ = {isa = PBXFileReference; lastKnownFileType = folder; path = Models; };");
   GroupEnd (ln "/* End PBXGroup section */"); sources_region].

(** * Properties *)

(** ** The inner loops *)

Lemma copy_until_found marker body e post :
  forallb (lacks marker) body = true ->
  contains marker e = true ->
  copy_until marker (body ++ e :: post) = (body, e :: post).
Proof.
  intros Hbody He. induction body as [|l body IH]; simpl.
  - now rewrite He.
  - simpl in Hbody. apply andb_true_iff in Hbody as [Hl Hbody].
    unfold lacks in Hl. apply negb_true_iff in Hl. rewrite Hl.
    now rewrite (IH Hbody).
Qed.

Lemma copy_until_inv marker ls copied e rest :
  copy_until marker ls = (copied, e :: rest) ->
  ls = copied ++ e :: rest
  /\ forallb (lacks marker) copied = true
  /\ contains marker e = true.
Proof.
  revert copied. induction ls as [|l ls IH]; simpl; intros copied H.
  - discriminate.
  - destruct (contains marker l) eqn:Hl.
    + injection H as <- <- <-. auto.
    + destruct (copy_until marker ls) as [c r].
      injection H as <- ->.
      destruct (IH c eq_refl) as (-> & Hc & He).
      simpl. unfold lacks at 1. rewrite Hl. auto.
Qed.

Lemma copy_until_exhausted marker ls :
  forallb (lacks marker) ls = true -> snd (copy_until marker ls) = [].
Proof.
  induction ls as [|l ls IH]; simpl; [reflexivity|].
  intros H. apply andb_true_iff in H as [Hl H].
  unfold lacks in Hl. apply negb_true_iff in Hl. rewrite Hl.
  specialize (IH H). destruct (copy_until marker ls). exact IH.
Qed.

Lemma copy_refs_until_found body e post :
  forallb (lacks end_file_ref) body = true ->
  contains end_file_ref e = true ->
  copy_refs_until (body ++ e :: post) = (filter kept body, e :: post).
Proof.
  intros Hbody He. induction body as [|l body IH]; simpl.
  - now rewrite He.
  - simpl in Hbody. apply andb_true_iff in Hbody as [Hl Hbody].
    unfold lacks in Hl. apply negb_true_iff in Hl. rewrite Hl.
    rewrite (IH Hbody). unfold kept. now destruct (is_folder_ref l).
Qed.

Lemma copy_refs_until_inv ls copied e rest :
  copy_refs_until ls = (copied, e :: rest) ->
  exists body,
    ls = body ++ e :: rest
    /\ copied = filter kept body
    /\ forallb (lacks end_file_ref) body = true
    /\ contains end_file_ref e = true.
Proof.
  revert copied. induction ls as [|l ls IH]; simpl; intros copied H.
  - discriminate.
  - destruct (contains end_file_ref l) eqn:Hl.
    + injection H as <- <- <-. exists []. auto.
    + destruct (copy_refs_until ls) as [c r].
      assert (Hr : r = e :: rest) by (destruct (is_folder_ref l); congruence).
      subst r. destruct (IH c eq_refl) as (body & -> & -> & Hb & He).
      exists (l :: body). simpl. unfold lacks at 1. rewrite Hl.
      unfold kept at 1. destruct (is_folder_ref l); simpl in *.
      * injection H as <-. auto.
      * injection H as <-. auto.
Qed.

(** ** One iteration consumes one segment *)

Lemma main_loop_cons g line rest :
  main_loop g (line :: rest) =
  match step g line rest with
  | Ok (out, rest') => emit out (main_loop g rest')
  | Raise e => Raise e
  end.
Proof.
  simp main_loop.
  destruct (inspect (step g line rest)) as [r Hr].
  destruct r as [[out rest']|e]; simp main_loop; rewrite Hr; reflexivity.
Qed.

Lemma blocks_ok g : keys_ok g = true -> group_blocks g dir_id_map = Ok (blocks g).
Proof.
  unfold keys_ok, blocks. destruct (group_blocks g dir_id_map); [reflexivity|discriminate].
Qed.

Ltac split_ok H :=
  unfold lacks in H; rewrite ?andb_true_iff, ?negb_true_iff in H.

Lemma step_segment g s post line rest :
  seg_ok s = true ->
  (is_group_end s = true -> keys_ok g = true) ->
  seg_lines s ++ post = line :: rest ->
  step g line rest = Ok (seg_output g s, post).
Proof.
  intros Hok Hkeys Hlines. unfold step.
  destruct s as [l|b body e|b body e|l|b head f body c];
    simpl in Hok, Hlines; injection Hlines as <- <-.
  - split_ok Hok. destruct Hok as (((-> & ->) & ->) & ->). reflexivity.
  - rewrite 2 andb_true_iff in Hok. destruct Hok as ((-> & Hbody) & He).
    rewrite <- app_assoc. simpl.
    rewrite copy_until_found by assumption. reflexivity.
  - rewrite 3 andb_true_iff in Hok. destruct Hok as (((Hb & ->) & Hbody) & He).
    apply negb_true_iff in Hb. rewrite Hb.
    rewrite <- app_assoc. simpl.
    rewrite copy_refs_until_found by assumption. reflexivity.
  - split_ok Hok. destruct Hok as ((-> & ->) & ->).
    rewrite (blocks_ok g (Hkeys eq_refl)). reflexivity.
  - rewrite 7 andb_true_iff in Hok.
    destruct Hok as (((((((H1 & H2) & H3) & ->) & Hhead) & Hf) & Hbody) & Hc).
    apply negb_true_iff in H1, H2, H3. rewrite H1, H2, H3.
    replace ((head ++ f :: body ++ [c]) ++ post)
      with (head ++ f :: (body ++ c :: post))
      by (repeat (rewrite <- app_assoc; simpl); reflexivity).
    rewrite copy_until_found by assumption.
    rewrite copy_until_found by assumption. reflexivity.
Qed.

Lemma step_inv g line rest out rest' :
  step g line rest = Ok (out, rest') ->
  exists s,
    seg_ok s = true
    /\ (is_group_end s = true -> keys_ok g = true)
    /\ line :: rest = seg_lines s ++ rest'
    /\ out = seg_output g s.
Proof.
  unfold step. intros H.
  destruct (contains begin_build_file line) eqn:Hbb.
  { destruct (copy_until end_build_file rest) as [c [|e r]] eqn:Hc; [discriminate|].
    injection H as <- <-. apply copy_until_inv in Hc as (-> & Hbody & He).
    exists (BuildFiles line c e). simpl. rewrite Hbb, Hbody, He.
    rewrite <- app_assoc. repeat split; discriminate. }
  destruct (contains begin_file_ref line) eqn:Hbr.
  { destruct (copy_refs_until rest) as [c [|e r]] eqn:Hc; [discriminate|].
    injection H as <- <-.
    apply copy_refs_until_inv in Hc as (body & -> & -> & Hbody & He).
    exists (FileRefs line body e). simpl. rewrite Hbody, He. unfold lacks. rewrite Hbb, Hbr.
    rewrite <- app_assoc. repeat split; discriminate. }
  destruct (contains end_group line) eqn:Heg.
  { destruct (group_blocks g dir_id_map) as [b|] eqn:Hb; simpl in H; [|discriminate].
    injection H as <- <-.
    exists (GroupEnd line). simpl. unfold lacks, keys_ok, blocks.
    rewrite Hbb, Hbr, Heg, Hb. repeat split. }
  destruct (contains sources_phase line) eqn:Hsp.
  { destruct (copy_until files_open rest) as [c [|f r]] eqn:Hc; [discriminate|].
    destruct (copy_until list_close r) as [c' [|e' r']] eqn:Hc'; [discriminate|].
    injection H as <- <-.
    apply copy_until_inv in Hc as (-> & Hhead & Hf).
    apply copy_until_inv in Hc' as (-> & Hbody & He).
    exists (SourcesPhase line c f c' e'). simpl. rewrite Hsp, Hhead, Hf, Hbody, He.
    unfold lacks. rewrite Hbb, Hbr, Heg.
    repeat (rewrite <- app_assoc; simpl). repeat split; discriminate. }
  injection H as <- <-.
  exists (Plain line). simpl. unfold lacks. rewrite Hbb, Hbr, Heg, Hsp.
  repeat split; discriminate.
Qed.

(** ** The pass on a manifest made of segments *)

Lemma seg_lines_nonempty s : exists l ls, seg_lines s = l :: ls.
Proof. destruct s; simpl; eauto. Qed.

Lemma main_loop_segments g segs :
  forallb seg_ok segs = true ->
  (existsb is_group_end segs = true -> keys_ok g = true) ->
  main_loop g (manifest segs) = Ok (patched g segs).
Proof.
  induction segs as [|s segs IH]; intros Hok Hkeys.
  - reflexivity.
  - simpl in Hok. apply andb_true_iff in Hok as [Hs Hok].
    unfold manifest, patched. simpl.
    destruct (seg_lines_nonempty s) as (l & ls & Hl).
    fold (manifest segs). fold (patched g segs).
    rewrite Hl. simpl. rewrite main_loop_cons.
    rewrite (step_segment g s (manifest segs) l (ls ++ manifest segs)).
    + rewrite IH; [reflexivity|assumption|].
      intros H. apply Hkeys. simpl. rewrite H. apply orb_true_r.
    + assumption.
    + intros H. apply Hkeys. simpl. now rewrite H.
    + now rewrite Hl.
Qed.

Lemma lines_ind (P : list string -> Prop) :
  P [] ->
  (forall line rest,
      (forall rest', List.length rest' <= List.length rest -> P rest') ->
      P (line :: rest)) ->
  forall lines, P lines.
Proof.
  intros Hnil Hcons lines.
  assert (H : forall n ls, List.length ls <= n -> P ls).
  { induction n as [|n IH]; intros [|l ls] Hlen; simpl in Hlen; try assumption; try lia.
    apply Hcons. intros rest' Hr. apply IH. lia. }
  apply (H (List.length lines)). lia.
Qed.

Lemma seg_lines_app_length s rest rest' line :
  line :: rest = seg_lines s ++ rest' -> List.length rest' <= List.length rest.
Proof.
  intros H. apply (f_equal (@List.length string)) in H.
  rewrite length_app in H. simpl in H.
  destruct (seg_lines_nonempty s) as (l & ls & Hl). rewrite Hl in H. simpl in H. lia.
Qed.

Lemma main_loop_inv g lines out :
  main_loop g lines = Ok out ->
  exists segs,
    forallb seg_ok segs = true
    /\ (existsb is_group_end segs = true -> keys_ok g = true)
    /\ lines = manifest segs
    /\ out = patched g segs.
Proof.
  revert out. induction lines as [|line rest IH] using lines_ind; intros out H.
  - simp main_loop in H. injection H as <-. exists []. repeat split. discriminate.
  - rewrite main_loop_cons in H.
    destruct (step g line rest) as [[o rest']|e] eqn:Hstep; [|discriminate].
    destruct (step_inv _ _ _ _ _ Hstep) as (s & Hs & Hk & Hl & ->).
    unfold emit in H.
    destruct (main_loop g rest') as [o'|] eqn:Hrest; simpl in H; [|discriminate].
    injection H as <-.
    destruct (IH rest' (seg_lines_app_length _ _ _ _ Hl) o' Hrest)
      as (segs & Hsegs & Hks & -> & ->).
    exists (s :: segs). simpl. rewrite Hs, Hsegs. repeat split; try assumption.
    intros Hor. apply orb_true_iff in Hor as [Hg|Hg]; auto.
Qed.

Lemma seg_ok_plain ls :
  forallb seg_ok (map Plain ls) = forallb (fun l => seg_ok (Plain l)) ls.
Proof. induction ls as [|l ls IH]; [reflexivity|]. cbn [map forallb]. now rewrite IH. Qed.

Lemma manifest_plain ls : manifest (map Plain ls) = ls.
Proof. unfold manifest. induction ls; simpl; congruence. Qed.

Lemma patched_plain g ls : patched g (map Plain ls) = ls.
Proof. unfold patched. induction ls; simpl; congruence. Qed.

(** ** Identifiers *)

Lemma read_decimal_zeros k s : read_decimal (zeros k ++ s) = read_decimal s.
Proof.
  induction k as [|k IH]; [reflexivity|].
  unfold read_decimal in *. simpl.
  destruct (NilEmpty.uint_of_string (zeros k ++ s)) as [d|];
    destruct (NilEmpty.uint_of_string s) as [d'|]; simpl in *; congruence.
Qed.

Lemma read_decimal_digits n : read_decimal (digits n) = Some n.
Proof.
  unfold read_decimal, digits. rewrite NilEmpty.usu. simpl.
  now rewrite DecimalN.Unsigned.of_to.
Qed.

Lemma read_format_020d n :
  (0 <= n)%Z -> read_decimal (format_020d n) = Some (Z.to_N n).
Proof.
  intros Hn. unfold format_020d.
  destruct (Z.ltb_spec n 0); [lia|].
  rewrite read_decimal_zeros, read_decimal_digits. f_equal. lia.
Qed.

Lemma append_cancel_l p s t : (p ++ s = p ++ t)%string -> s = t.
Proof. induction p as [|a p IH]; simpl; intros H; [assumption|]. injection H as H. auto. Qed.

Lemma generate_id_inj prefix a b :
  (0 <= a)%Z -> (0 <= b)%Z ->
  generate_id prefix a = generate_id prefix b -> a = b.
Proof.
  intros Ha Hb H. unfold generate_id in H. apply append_cancel_l in H.
  apply (f_equal read_decimal) in H.
  rewrite !read_format_020d in H by assumption.
  injection H as H. lia.
Qed.

Lemma generate_id_prefixes a b : generate_id "BB" a <> generate_id "CC" b.
Proof. unfold generate_id. simpl. discriminate. Qed.

(** ** The generation loop *)

Lemma dict_append_ok k x d :
  In k (map fst d) ->
  exists d', dict_append k x d = Ok d'
             /\ map fst d' = map fst d
             /\ group_total d' = S (group_total d).
Proof.
  induction d as [|[k' v] d IH]; simpl; intros Hin; [contradiction|].
  destruct (String.eqb_spec k k') as [->|Hne].
  - eexists. split; [reflexivity|]. split; [reflexivity|].
    unfold group_total. simpl. rewrite length_app. simpl. lia.
  - destruct Hin as [->|Hin]; [congruence|].
    destruct (IH Hin) as (d' & -> & Hkeys & Htot). simpl.
    eexists. split; [reflexivity|]. simpl. split; [now rewrite Hkeys|].
    unfold group_total in *. simpl. lia.
Qed.

Lemma dict_get_ok k d : In k (map fst d) -> exists v, dict_get k d = Ok v.
Proof.
  induction d as [|[k' v] d IH]; simpl; intros Hin; [contradiction|].
  destruct (String.eqb_spec k k') as [->|Hne]; [eauto|].
  destruct Hin as [->|Hin]; [congruence|auto].
Qed.

Lemma numbered_length c files : List.length (numbered c files) = List.length files.
Proof. revert c. induction files; intros; simpl; auto. Qed.

Lemma numbered_counters c files :
  map fst (numbered c files)
  = map (fun i => (c + Z.of_nat i)%Z) (seq 0 (List.length files)).
Proof.
  revert c. induction files as [|f files IH]; intros c; simpl; [reflexivity|].
  f_equal; [lia|]. rewrite IH. rewrite <- seq_shift, map_map.
  apply map_ext. intros i. lia.
Qed.

Lemma gen_loop_spec files : forall st,
  Forall (fun file => In (fst file) (map fst (group_entries st))) files ->
  exists st',
    gen_loop st files = Ok st'
    /\ map fst (group_entries st') = map fst (group_entries st)
    /\ group_total (group_entries st') = group_total (group_entries st) + List.length files
    /\ counter st' = (counter st + Z.of_nat (List.length files))%Z
    /\ file_ref_entries st' =
       file_ref_entries st
       ++ map (fun cf => file_ref_entry (generate_id "BB" (fst cf)) (snd (snd cf)))
              (numbered (counter st) files)
    /\ build_file_entries st' =
       build_file_entries st
       ++ map (fun cf => build_file_entry (generate_id "CC" (fst cf))
                           (generate_id "BB" (fst cf)) (snd (snd cf)))
              (numbered (counter st) files)
    /\ sources_entries st' =
       sources_entries st
       ++ map (fun cf => sources_entry (generate_id "CC" (fst cf)) (snd (snd cf)))
              (numbered (counter st) files).
Proof.
  induction files as [|[directory filename] files IH]; intros st Hdirs.
  - exists st. simpl. rewrite !app_nil_r. repeat split; lia.
  - inversion Hdirs as [|? ? Hd Hrest]; subst. simpl in Hd.
    destruct (dict_append_ok directory
                (group_entry (generate_id "BB" (counter st)) filename)
                (group_entries st) Hd) as (d' & Happ & Hkeys & Htot).
    simpl. rewrite Happ. simpl.
    match goal with |- context [gen_loop ?s files] => destruct (IH s) as (st' & Hloop & Hk & Ht & Hc & Hf & Hb & Hs) end.
    { simpl. rewrite Hkeys. exact Hrest. }
    exists st'. simpl in *. rewrite Hloop, Hk, Ht, Hc, Hf, Hb, Hs, Hkeys, Htot.
    rewrite <- !app_assoc. simpl. repeat split; lia.
Qed.

Lemma generate_spec files :
  Forall (fun file => In (fst file) directories) files ->
  exists g,
    generate files = Ok g
    /\ map fst (group_entries g) = directories
    /\ group_total (group_entries g) = List.length files
    /\ counter g = (5000 + Z.of_nat (List.length files))%Z
    /\ file_ref_entries g =
       map (fun cf => file_ref_entry (generate_id "BB" (fst cf)) (snd (snd cf)))
           (numbered 5000 files)
    /\ build_file_entries g =
       map (fun cf => build_file_entry (generate_id "CC" (fst cf))
                        (generate_id "BB" (fst cf)) (snd (snd cf)))
           (numbered 5000 files)
    /\ sources_entries g =
       map (fun cf => sources_entry (generate_id "CC" (fst cf)) (snd (snd cf)))
           (numbered 5000 files).
Proof.
  intros Hdirs. unfold generate.
  destruct (gen_loop_spec files gen_init) as (g & Hloop & Hk & Ht & Hc & Hf & Hb & Hs).
  { exact Hdirs. }
  exists g. simpl in *. repeat split; assumption.
Qed.

(** ** Discovery *)

Lemma ascii_compare_refl c : Ascii.compare c c = Eq.
Proof. unfold Ascii.compare. apply N.compare_refl. Qed.

Lemma ascii_compare_eq a b : Ascii.compare a b = Eq -> a = b.
Proof.
  unfold Ascii.compare. intros H. apply N.compare_eq in H.
  rewrite <- (ascii_N_embedding a), <- (ascii_N_embedding b). now rewrite H.
Qed.

Lemma ascii_compare_lt_trans a b c :
  Ascii.compare a b = Lt -> Ascii.compare b c = Lt -> Ascii.compare a c = Lt.
Proof. unfold Ascii.compare. rewrite !N.compare_lt_iff. lia. Qed.

Lemma ascii_compare_gt_lt a b :
  Ascii.compare a b = Gt -> Ascii.compare b a = Lt.
Proof. unfold Ascii.compare. rewrite N.compare_gt_iff, N.compare_lt_iff. lia. Qed.

Lemma string_compare_not_gt_trans s1 : forall s2 s3,
  String.compare s1 s2 <> Gt -> String.compare s2 s3 <> Gt ->
  String.compare s1 s3 <> Gt.
Proof.
  induction s1 as [|a s1 IH]; intros [|b s2] [|c s3]; simpl; try congruence.
  destruct (Ascii.compare a b) eqn:Hab; try congruence;
    destruct (Ascii.compare b c) eqn:Hbc; try congruence.
  - apply ascii_compare_eq in Hab, Hbc. subst. rewrite ascii_compare_refl. apply IH.
  - apply ascii_compare_eq in Hab. subst. now rewrite Hbc.
  - apply ascii_compare_eq in Hbc. subst. now rewrite Hab.
  - now rewrite (ascii_compare_lt_trans _ _ _ Hab Hbc).
Qed.

Lemma le_name_trans a b c : le_name a b -> le_name b c -> le_name a c.
Proof.
  unfold le_name, String.leb. intros Hab Hbc.
  pose proof (string_compare_not_gt_trans a b c) as H.
  destruct (String.compare a b); destruct (String.compare b c);
    destruct (String.compare a c); try reflexivity; try discriminate;
    exfalso; apply H; congruence.
Qed.

Lemma insert_perm x l : Permutation (insert x l) (x :: l).
Proof.
  induction l as [|y l IH]; simpl; [reflexivity|].
  destruct (String.leb x y); [reflexivity|].
  rewrite IH. apply perm_swap.
Qed.

Lemma sorted_perm l : Permutation (sorted l) l.
Proof.
  induction l as [|x l IH]; simpl; [reflexivity|].
  rewrite insert_perm. now constructor.
Qed.

Lemma insert_sorted x l : StronglySorted le_name l -> StronglySorted le_name (insert x l).
Proof.
  induction 1 as [|y l Hl IH Hy]; simpl.
  - repeat constructor.
  - destruct (String.leb x y) eqn:Hxy.
    + constructor; [now constructor|].
      constructor; [exact Hxy|].
      eapply Forall_impl; [|exact Hy]. intros z Hz. now apply (le_name_trans x y z).
    + constructor; [exact IH|].
      assert (Hyx : le_name y x).
      { destruct (String.leb_total x y) as [H|H]; [congruence|exact H]. }
      eapply Permutation_Forall; [symmetry; apply insert_perm|].
      now constructor.
Qed.

Lemma sorted_sorted l : StronglySorted le_name (sorted l).
Proof. induction l; simpl; [constructor|now apply insert_sorted]. Qed.


Lemma filter_perm (p : string -> bool) l l' :
  Permutation l l' -> Permutation (filter p l) (filter p l').
Proof.
  induction 1 as [|x l l' _ IH|x y l|l l' l'' _ IH1 _ IH2]; simpl.
  - constructor.
  - destruct (p x); [now constructor|exact IH].
  - destruct (p x), (p y); try reflexivity. apply perm_swap.
  - now transitivity (filter p l').
Qed.

Lemma filter_flat_map {A B} (p : B -> bool) (f : A -> list B) l :
  filter p (flat_map f l) = flat_map (fun a => filter p (f a)) l.
Proof.
  induction l as [|a l IH]; simpl; [reflexivity|].
  now rewrite filter_app, IH.
Qed.

Lemma files_to_add_listing fs :
  files_to_add fs
  = flat_map (fun directory => map (fun name => (directory, name)) (listing fs directory))
             directories.
Proof.
  unfold files_to_add, swift_files. rewrite filter_flat_map.
  apply flat_map_ext. intros d. unfold listing.
  destruct (exists_ (fs d)); [|reflexivity].
  now rewrite filter_map_swap.
Qed.

Lemma files_to_add_directories fs :
  Forall (fun file => In (fst file) directories) (files_to_add fs).
Proof.
  rewrite files_to_add_listing. apply Forall_forall. intros [d n] H.
  apply in_flat_map in H as (d' & Hd' & H).
  apply in_map_iff in H as (n' & [= <- <-] & _). exact Hd'.
Qed.

Lemma generate_discovered fs :
  exists g, generate (files_to_add fs) = Ok g
            /\ map fst (group_entries g) = directories.
Proof.
  destruct (generate_spec _ (files_to_add_directories fs)) as (g & Hg & Hk & _).
  eauto.
Qed.

Lemma ends_with_spec suffix s :
  ends_with suffix s = true <-> exists stem, s = (stem ++ suffix)%string.
Proof.
  split.
  - induction s as [|a s IH]; cbn [ends_with].
    + destruct (String.eqb_spec EmptyString suffix) as [<-|]; [|discriminate].
      intros _. now exists EmptyString.
    + destruct (String.eqb_spec (String a s) suffix) as [<-|].
      * intros _. now exists EmptyString.
      * intros H. destruct (IH H) as (stem & ->). now exists (String a stem).
  - intros (stem & ->). induction stem as [|a stem IH].
    + destruct suffix; cbn [ends_with append]; now rewrite String.eqb_refl.
    + cbn [ends_with append]. rewrite IH. now destruct (String.eqb _ _).
Qed.


Lemma filter_twice {A} (p q : A -> bool) l :
  filter p (filter q l) = filter (fun x => q x && p x) l.
Proof.
  induction l as [|x l IH]; simpl; [reflexivity|].
  destruct (q x); simpl; [|exact IH]. destruct (p x); now rewrite IH.
Qed.



(** C6. Discovery does not enumerate files only.  [glob] matches the names
    of the entries of a category directory and never asks what an entry
    is, so a subdirectory whose name ends in [.swift] is listed beside the
    files (lines 28-29), although the script sets out to find Swift files
    (line 21). *)
Theorem discovery_registers_subdirectory :
  In ("Dir.swift", Subdirectory) [("A.swift", RegularFile); ("Dir.swift", Subdirectory)]
  /\ discover views_with_subdirectory
     = [("Views", "A.swift"); ("Views", "Dir.swift")].
Proof. split; [simpl; tauto|reflexivity]. Qed.

(** C3. In every run the generation loop succeeds and builds one
    file-reference fragment, one build-file fragment and one sources-phase
    fragment per discovered file that survives the skip list; the group-child
    fragments of all categories together number as many. *)
Theorem fragment_counts (fs : filesystem) :
  exists g,
    generate (files_to_add fs) = Ok g
    /\ List.length (file_ref_entries g) = List.length (files_to_add fs)
    /\ List.length (build_file_entries g) = List.length (files_to_add fs)
    /\ List.length (sources_entries g) = List.length (files_to_add fs)
    /\ group_total (group_entries g) = List.length (files_to_add fs).
Proof.
  destruct (generate_spec _ (files_to_add_directories fs))
    as (g & Hg & _ & Ht & _ & Hf & Hb & Hs).
  exists g. rewrite Hf, Hb, Hs, !length_map, !numbered_length. auto.
Qed.

Lemma ids_of_numbered_bound x files : forall c,
  In x (flat_map ids_of (numbered c files)) ->
  exists c', (c <= c')%Z /\ (x = generate_id "BB" c' \/ x = generate_id "CC" c').
Proof.
  induction files as [|f files IH]; intros c; simpl; [contradiction|].
  intros [<-|[<-|H]].
  - exists c. split; [lia|auto].
  - exists c. split; [lia|auto].
  - destruct (IH _ H) as (c' & Hc' & Hx). exists c'. split; [lia|exact Hx].
Qed.

Lemma ids_of_numbered_nodup files : forall c,
  (0 <= c)%Z -> NoDup (flat_map ids_of (numbered c files)).
Proof.
  induction files as [|f files IH]; intros c Hc; simpl; [constructor|].
  constructor; [|constructor; [|apply IH; lia]].
  - intros [H|H].
    + symmetry in H. now apply generate_id_prefixes in H.
    + apply ids_of_numbered_bound in H as (c' & Hc' & [H|H]).
      * apply generate_id_inj in H; lia.
      * now apply generate_id_prefixes in H.
  - intros H. apply ids_of_numbered_bound in H as (c' & Hc' & [H|H]).
    + symmetry in H. now apply generate_id_prefixes in H.
    + apply generate_id_inj in H; lia.
Qed.

(** C4. Identifier allocation is collision-free.  The i-th discovered file
    is processed with counter value 5000 + i (one step per file, not per
    identifier); its fragments carry the two identifiers made from that one
    value with the prefixes BB and CC; and the identifiers of a run are
    pairwise distinct, across files and across the two kinds. *)
Theorem identifiers_collision_free (fs : filesystem) :
  exists g,
    generate (files_to_add fs) = Ok g
    /\ map fst (numbered 5000 (files_to_add fs))
       = map (fun i => (5000 + Z.of_nat i)%Z) (seq 0 (List.length (files_to_add fs)))
    /\ counter g = (5000 + Z.of_nat (List.length (files_to_add fs)))%Z
    /\ file_ref_entries g
       = map (fun cf => file_ref_entry (generate_id "BB" (fst cf)) (snd (snd cf)))
           (numbered 5000 (files_to_add fs))
    /\ build_file_entries g
       = map (fun cf => build_file_entry (generate_id "CC" (fst cf))
                          (generate_id "BB" (fst cf)) (snd (snd cf)))
           (numbered 5000 (files_to_add fs))
    /\ sources_entries g
       = map (fun cf => sources_entry (generate_id "CC" (fst cf)) (snd (snd cf)))
           (numbered 5000 (files_to_add fs))
    /\ NoDup (flat_map ids_of (numbered 5000 (files_to_add fs))).
Proof.
  destruct (generate_spec _ (files_to_add_directories fs))
    as (g & Hg & _ & _ & Hc & Hf & Hb & Hs).
  exists g. repeat split; try assumption.
  - apply numbered_counters.
  - apply ids_of_numbered_nodup. lia.
Qed.

(** ** What the pass may change *)

Lemma subsequence_skip_many new xs ys :
  subsequence xs ys -> subsequence xs (new ++ ys).
Proof. induction new; simpl; [auto|]. intros. now apply subsequence_skip, IHnew. Qed.

Lemma spliced_subsequence g m lines out :
  spliced g m lines out -> subsequence (filter kept lines) out.
Proof.
  induction 1 as [|m l ls out _ _ _ IH|m l ls out Hd _ IH|m l new ls out _ _ IH]; simpl.
  - constructor.
  - destruct (kept l); [now constructor|now apply subsequence_skip].
  - destruct m; try discriminate. simpl in Hd.
    apply andb_true_iff in Hd as [_ Hf]. unfold kept. rewrite Hf. exact IH.
  - apply subsequence_skip_many.
    destruct (kept l); [now constructor|now apply subsequence_skip].
Qed.

Section SplicedSegments.

Variable g : gen_state.
Variables (rest out : list string).
Hypothesis Hrest : spliced g Outside rest out.

Lemma spliced_build_files body e :
  forallb (lacks end_build_file) body = true ->
  contains end_build_file e = true ->
  spliced g InBuildFiles (body ++ e :: rest)
    (body ++ build_file_entries g ++ e :: out).
Proof.
  intros Hbody He. induction body as [|l body IH]; simpl.
  - apply spliced_inject; simpl; rewrite He; [reflexivity|exact Hrest].
  - simpl in Hbody. apply andb_true_iff in Hbody as [Hl Hbody].
    unfold lacks in Hl. apply negb_true_iff in Hl.
    apply spliced_copy; simpl; rewrite ?Hl; auto.
Qed.

Lemma spliced_file_refs body e :
  forallb (lacks end_file_ref) body = true ->
  contains end_file_ref e = true ->
  spliced g InFileRefs (body ++ e :: rest)
    (filter kept body ++ file_ref_entries g ++ e :: out).
Proof.
  intros Hbody He. induction body as [|l body IH]; simpl.
  - apply spliced_inject; simpl; rewrite He; [reflexivity|exact Hrest].
  - simpl in Hbody. apply andb_true_iff in Hbody as [Hl Hbody].
    unfold lacks in Hl. apply negb_true_iff in Hl.
    unfold kept at 1. destruct (is_folder_ref l) eqn:Hf; simpl.
    + apply spliced_drop; simpl; rewrite ?Hl, ?Hf; auto.
    + apply spliced_copy; simpl; rewrite ?Hl, ?Hf; auto.
Qed.

Lemma spliced_sources_files body c :
  forallb (lacks list_close) body = true ->
  contains list_close c = true ->
  spliced g SourcesFiles (body ++ c :: rest)
    (body ++ sources_entries g ++ c :: out).
Proof.
  intros Hbody Hc. induction body as [|l body IH]; simpl.
  - apply spliced_inject; simpl; rewrite Hc; [reflexivity|exact Hrest].
  - simpl in Hbody. apply andb_true_iff in Hbody as [Hl Hbody].
    unfold lacks in Hl. apply negb_true_iff in Hl.
    apply spliced_copy; simpl; rewrite ?Hl; auto.
Qed.

Lemma spliced_sources_head head f body c :
  forallb (lacks files_open) head = true ->
  contains files_open f = true ->
  forallb (lacks list_close) body = true ->
  contains list_close c = true ->
  spliced g SourcesHead (head ++ f :: body ++ c :: rest)
    (head ++ f :: body ++ sources_entries g ++ c :: out).
Proof.
  intros Hhead Hf Hbody Hc. induction head as [|l head IH]; simpl.
  - apply spliced_copy; simpl; rewrite ?Hf; auto.
    now apply spliced_sources_files.
  - simpl in Hhead. apply andb_true_iff in Hhead as [Hl Hhead].
    unfold lacks in Hl. apply negb_true_iff in Hl.
    apply spliced_copy; simpl; rewrite ?Hl; auto.
Qed.

Lemma spliced_segment s :
  seg_ok s = true ->
  spliced g Outside (seg_lines s ++ rest) (seg_output g s ++ out).
Proof.
  intros Hok.
  destruct s as [l|b body e|b body e|l|b head f body c]; simpl in *.
  - split_ok Hok. destruct Hok as (((H1 & H2) & H3) & H4).
    apply spliced_copy; simpl; rewrite ?H1, ?H2, ?H3, ?H4; auto.
  - rewrite 2 andb_true_iff in Hok. destruct Hok as ((Hb & Hbody) & He).
    rewrite <- !app_assoc. simpl.
    apply spliced_copy; simpl; rewrite ?Hb; auto.
    now apply spliced_build_files.
  - rewrite 3 andb_true_iff in Hok. destruct Hok as (((Hbb & Hb) & Hbody) & He).
    apply negb_true_iff in Hbb.
    rewrite <- !app_assoc. simpl.
    apply spliced_copy; simpl; rewrite ?Hbb, ?Hb; auto.
    now apply spliced_file_refs.
  - split_ok Hok. destruct Hok as ((H1 & H2) & H3).
    rewrite <- app_assoc. simpl.
    apply spliced_inject; simpl; rewrite ?H1, ?H2, ?H3; auto.
  - rewrite 7 andb_true_iff in Hok.
    destruct Hok as (((((((H1 & H2) & H3) & Hb) & Hhead) & Hf) & Hbody) & Hc).
    apply negb_true_iff in H1, H2, H3.
    replace ((head ++ f :: body ++ [c]) ++ rest)
      with (head ++ f :: body ++ c :: rest)
      by (repeat (rewrite <- app_assoc; simpl); reflexivity).
    replace ((head ++ f :: body ++ sources_entries g ++ [c]) ++ out)
      with (head ++ f :: body ++ sources_entries g ++ c :: out)
      by (repeat (rewrite <- app_assoc; simpl); reflexivity).
    apply spliced_copy; simpl; rewrite ?H1, ?H2, ?H3, ?Hb; auto.
    now apply spliced_sources_head.
Qed.

End SplicedSegments.

Lemma spliced_segments g segs :
  forallb seg_ok segs = true ->
  spliced g Outside (manifest segs) (patched g segs).
Proof.
  induction segs as [|s segs IH]; simpl; intros Hok; [constructor|].
  apply andb_true_iff in Hok as [Hs Hok].
  apply spliced_segment; auto.
Qed.

Lemma main_loop_spliced g lines out :
  main_loop g lines = Ok out -> spliced g Outside lines out.
Proof.
  intros H. apply main_loop_inv in H as (segs & Hok & _ & -> & ->).
  now apply spliced_segments.
Qed.

Lemma drops_not_injected g m l : drops m l = true -> injected g m l = None.
Proof.
  destruct m; simpl; try discriminate.
  intros H. apply andb_true_iff in H as [H _]. apply negb_true_iff in H.
  now rewrite H.
Qed.

(** The relation leaves no choice: a manifest has at most one output. *)
Lemma spliced_functional g m lines out :
  spliced g m lines out -> forall out', spliced g m lines out' -> out' = out.
Proof.
  induction 1 as [|m l ls out Hi Hd _ IH|m l ls out Hd _ IH|m l new ls out Hi _ IH];
    intros out' H'; inversion H'; subst.
  - reflexivity.
  - f_equal. now apply IH.
  - congruence.
  - congruence.
  - congruence.
  - now apply IH.
  - pose proof (drops_not_injected g m l Hd). congruence.
  - congruence.
  - pose proof (drops_not_injected g m l H2). congruence.
  - assert (new0 = new) by congruence. subst new0.
    f_equal. f_equal. now apply IH.
Qed.

(** C2. Whenever the pass produces an output, that output is the manifest
    with two kinds of edit only.  A line is left out only if it is a folder
    reference naming one of the five categories and lies between the
    markers of the file-reference table.  Lines are added only at the four
    injection points: the build-file fragments before the End line of a
    build-file table that was entered, the file-reference fragments before
    the End line of a file-reference table that was entered, the group
    blocks before an End PBXGroup line met outside every region, and the
    sources-phase fragments before the first closing line after the
    [files = (] line of a sources phase.  Every other line is copied
    unchanged and in order, so no other output is related to the manifest;
    in particular the lines that are not such folder references form a
    subsequence of the output. *)
Theorem frame_preserved (fs : filesystem) (lines out : list string) :
  main fs lines = Ok out ->
  exists g,
    generate (files_to_add fs) = Ok g
    /\ spliced g Outside lines out
    /\ (forall out', spliced g Outside lines out' -> out' = out)
    /\ subsequence (filter (fun l => negb (is_folder_ref l)) lines) out.
Proof.
  unfold main. intros H.
  destruct (generate (files_to_add fs)) as [g|] eqn:Hg; simpl in H; [|discriminate].
  exists g. split; [reflexivity|].
  apply main_loop_spliced in H. split; [exact H|]. split.
  - now apply spliced_functional.
  - exact (spliced_subsequence _ _ _ _ H).
Qed.

(** ** Runs of [main] *)

Lemma dict_keys_group_blocks g m :
  Forall (fun kv => In (fst kv) (map fst (group_entries g))) m ->
  exists b, group_blocks g m = Ok b.
Proof.
  induction m as [|[d id] m IH]; intros H; simpl; [eauto|].
  inversion H as [|? ? Hd Hm]; subst. simpl in Hd.
  destruct (dict_get_ok _ _ Hd) as (v & ->).
  destruct (IH Hm) as (b & ->). simpl. eauto.
Qed.

Lemma generated_keys_ok g :
  map fst (group_entries g) = directories -> keys_ok g = true.
Proof.
  intros Hk. unfold keys_ok.
  destruct (dict_keys_group_blocks g dir_id_map) as (b & ->); [|reflexivity].
  rewrite Hk. unfold dir_id_map, directories.
  repeat (constructor; [simpl; tauto|]). constructor.
Qed.

Lemma main_generated fs :
  exists g,
    generate (files_to_add fs) = Ok g
    /\ keys_ok g = true
    /\ map fst (group_entries g) = directories
    /\ forall lines, main fs lines = main_loop g lines.
Proof.
  destruct (generate_discovered fs) as (g & Hg & Hk).
  exists g. repeat split; auto using generated_keys_ok.
  intros lines. unfold main. now rewrite Hg.
Qed.

(** The manifests on which a run completes are those made of well-formed
    segments. *)
Lemma main_completes_iff fs lines :
  (exists out, main fs lines = Ok out)
  <-> exists segs, forallb seg_ok segs = true /\ lines = manifest segs.
Proof.
  destruct (main_generated fs) as (g & _ & Hkeys & _ & Hmain).
  rewrite Hmain. split.
  - intros (out & H). apply main_loop_inv in H as (segs & Hok & _ & -> & _). eauto.
  - intros (segs & Hok & ->). exists (patched g segs).
    now apply main_loop_segments.
Qed.

(** A manifest in which no line opens a region and none carries the End
    PBXGroup marker is copied as it is: the fragments are left out and no
    exception is raised. *)
Lemma main_loop_no_marker g lines :
  forallb (fun l => seg_ok (Plain l)) lines = true ->
  main_loop g lines = Ok lines.
Proof.
  intros H.
  rewrite <- (manifest_plain lines) at 1.
  rewrite <- (patched_plain g lines) at 2.
  apply main_loop_segments.
  - now rewrite seg_ok_plain.
  - intros Hg. exfalso. clear H. induction lines as [|l lines IH]; simpl in Hg.
    + discriminate.
    + auto.
Qed.

(** A build-file region that is opened and never closed ends the run. *)
Lemma main_loop_raises_unclosed g b rest :
  contains begin_build_file b = true ->
  forallb (lacks end_build_file) rest = true ->
  main_loop g (b :: rest) = Raise IndexError.
Proof.
  intros Hb Hrest. rewrite main_loop_cons. unfold step. rewrite Hb.
  pose proof (copy_until_exhausted _ _ Hrest) as H.
  destruct (copy_until end_build_file rest) as [c r]. simpl in H. now subst r.
Qed.

(** C1. The pass does not always complete when a marker is absent.  On a
    manifest whose Begin PBXBuildFile line is never followed by an End
    PBXBuildFile line, the inner loop runs off the end of the list and the
    indexing at line 88 raises IndexError, whatever the file system holds;
    likewise a Begin PBXFileReference line without its End line (line 108),
    and the sources phase line without a [files = (] line (line 146) or
    without a closing line (line 154). *)
Theorem missing_end_marker_raises (fs : filesystem) :
  main fs [ln "/* Begin PBXBuildFile section */"] = Raise IndexError
  /\ main fs [ln "/* Begin PBXFileReference section */"] = Raise IndexError
  /\ main fs [ln "AA9999940000000000000001 /* Sources */ = {"] = Raise IndexError
  /\ main fs [ln "AA9999940000000000000001 /* Sources */ = {"; ln "files = ("]
     = Raise IndexError.
Proof.
  destruct (main_generated fs) as (g & _ & _ & _ & Hmain).
  rewrite !Hmain. repeat split; rewrite main_loop_cons; reflexivity.
Qed.

(** ** Group blocks, as the specification words them *)

Lemma blocks_spec g :
  map fst (group_entries g) = directories -> blocks g = spec_group_blocks g.
Proof.
  intros Hk. unfold blocks, spec_group_blocks, spec_group_block, children_of.
  unfold dir_id_map. cbn [group_blocks].
  assert (Hin : forall d, In d directories -> exists v, dict_get d (group_entries g) = Ok v).
  { intros d Hd. apply dict_get_ok. now rewrite Hk. }
  destruct (Hin "Models") as (v1 & ->); [simpl; tauto|].
  destruct (Hin "ViewModels") as (v2 & ->); [simpl; tauto|].
  destruct (Hin "Views") as (v3 & ->); [simpl; tauto|].
  destruct (Hin "Services") as (v4 & ->); [simpl; tauto|].
  destruct (Hin "Components") as (v5 & ->); [simpl; tauto|].
  cbn [bind]. unfold group_block.
  destruct v1, v2, v3, v4, v5; rewrite ?app_nil_r; reflexivity.
Qed.

Lemma manifest_app segs1 segs2 :
  manifest (segs1 ++ segs2) = manifest segs1 ++ manifest segs2.
Proof. apply flat_map_app. Qed.

Lemma patched_app g segs1 segs2 :
  patched g (segs1 ++ segs2) = patched g segs1 ++ patched g segs2.
Proof. apply flat_map_app. Qed.

(** The pass on a manifest cut where the scan is outside every region. *)
Lemma main_loop_app g pre post o1 o2 :
  main_loop g pre = Ok o1 ->
  main_loop g post = Ok o2 ->
  main_loop g (pre ++ post) = Ok (o1 ++ o2).
Proof.
  intros H1 H2.
  apply main_loop_inv in H1 as (segs1 & Hok1 & Hk1 & -> & ->).
  apply main_loop_inv in H2 as (segs2 & Hok2 & Hk2 & -> & ->).
  rewrite <- manifest_app, <- patched_app.
  apply main_loop_segments.
  - rewrite forallb_app, Hok1, Hok2. reflexivity.
  - rewrite existsb_app. intros H. apply orb_true_iff in H as [H|H]; auto.
Qed.

(** C5, as amended.  When the scan meets a line with the End PBXGroup
    marker outside a build-file, file-reference or sources region (the
    lines before it are passed on their own, and the line does not also
    open a build-file or file-reference region), the output has, immediately
    before that line, the group blocks in the order Models, ViewModels,
    Views, Services, Components, one per category that has a group-child
    fragment, each made of the eight parts the specification lists. *)
Theorem group_blocks_before_marker
    (fs : filesystem) (pre post o1 o2 : list string) (l : string) :
  main fs pre = Ok o1 ->
  main fs post = Ok o2 ->
  contains begin_build_file l = false ->
  contains begin_file_ref l = false ->
  contains end_group l = true ->
  exists g,
    generate (files_to_add fs) = Ok g
    /\ main fs (pre ++ l :: post) = Ok (o1 ++ spec_group_blocks g ++ l :: o2).
Proof.
  intros Hpre Hpost Hbb Hbr Heg.
  destruct (main_generated fs) as (g & Hg & Hkeys & Hk & Hmain).
  exists g. split; [exact Hg|].
  rewrite Hmain in *.
  apply main_loop_app; [exact Hpre|].
  rewrite main_loop_cons. unfold step. rewrite Hbb, Hbr, Heg.
  rewrite (blocks_ok g Hkeys), (blocks_spec g Hk). cbn [bind].
  rewrite Hpost. unfold emit. cbn [bind]. now rewrite <- app_assoc.
Qed.

(** ** Counting lines *)

Lemma filter_split_length (p : string -> bool) l :
  List.length (filter (fun x => negb (p x)) l) + List.length (filter p l)
  = List.length l.
Proof.
  induction l as [|x l IH]; simpl; [reflexivity|].
  destruct (p x); simpl; lia.
Qed.

Lemma seg_output_length g s :
  List.length (seg_output g s) + List.length (seg_dropped s)
  = List.length (seg_lines s) + List.length (seg_inserted g s).
Proof.
  destruct s as [l|b body e|b body e|l|b head f body c]; simpl;
    repeat (rewrite ?length_app; simpl); try lia.
  pose proof (filter_split_length is_folder_ref body) as H.
  unfold kept. lia.
Qed.

Lemma patched_length g segs :
  List.length (patched g segs) + List.length (dropped segs)
  = List.length (manifest segs) + List.length (inserted g segs).
Proof.
  induction segs as [|s segs IH]; simpl; [reflexivity|].
  unfold patched, dropped, manifest, inserted in *. simpl.
  rewrite !length_app. pose proof (seg_output_length g s). lia.
Qed.

Lemma inserted_length g segs :
  List.length (inserted g segs)
  = occurrences is_build_files segs * List.length (build_file_entries g)
    + occurrences is_file_refs segs * List.length (file_ref_entries g)
    + occurrences is_group_end segs * List.length (blocks g)
    + occurrences is_sources segs * List.length (sources_entries g).
Proof.
  unfold inserted, occurrences.
  induction segs as [|s segs IH]; simpl; [reflexivity|].
  rewrite length_app, IH. destruct s; simpl; lia.
Qed.

Lemma no_sources_segment segs :
  forallb seg_ok segs = true ->
  forallb (lacks sources_phase) (manifest segs) = true ->
  occurrences is_sources segs = 0.
Proof.
  unfold occurrences, manifest.
  induction segs as [|s segs IH]; simpl; intros Hok Hno; [reflexivity|].
  apply andb_true_iff in Hok as [Hs Hok].
  rewrite forallb_app in Hno. apply andb_true_iff in Hno as [Hno1 Hno2].
  destruct s as [l|b body e|b body e|l|b head f body c]; simpl; auto.
  exfalso. simpl in Hs, Hno1.
  rewrite 7 andb_true_iff in Hs. destruct Hs as (((((((_ & _) & _) & Hb) & _) & _) & _) & _).
  apply andb_true_iff in Hno1 as [Hno1 _].
  unfold lacks in Hno1. rewrite Hb in Hno1. discriminate.
Qed.

Lemma main_segments fs segs :
  forallb seg_ok segs = true ->
  exists g,
    generate (files_to_add fs) = Ok g
    /\ map fst (group_entries g) = directories
    /\ main fs (manifest segs) = Ok (patched g segs).
Proof.
  intros Hok. destruct (main_generated fs) as (g & Hg & Hkeys & Hk & Hmain).
  exists g. repeat split; auto. rewrite Hmain. now apply main_loop_segments.
Qed.

(** C8, as amended.  On a manifest with no sources-phase marker line and
    with one build-file region, one file-reference region and one End
    PBXGroup line, the sources-phase fragments are generated (one per file)
    and none is written: the output has as many lines as the input, plus
    the file-reference fragments, the build-file fragments and the lines of
    the group blocks, minus the folder references dropped from the
    file-reference region. *)
Theorem growth_without_sources_phase (fs : filesystem) (segs : list segment) :
  forallb seg_ok segs = true ->
  forallb (lacks sources_phase) (manifest segs) = true ->
  occurrences is_build_files segs = 1 ->
  occurrences is_file_refs segs = 1 ->
  occurrences is_group_end segs = 1 ->
  exists g out,
    generate (files_to_add fs) = Ok g
    /\ List.length (sources_entries g) = List.length (files_to_add fs)
    /\ main fs (manifest segs) = Ok out
    /\ List.length out + List.length (dropped segs)
       = List.length (manifest segs)
         + List.length (file_ref_entries g)
         + List.length (build_file_entries g)
         + List.length (spec_group_blocks g).
Proof.
  intros Hok Hno HB HR HG.
  destruct (main_segments fs segs Hok) as (g & Hg & Hk & Hmain).
  exists g, (patched g segs). split; [exact Hg|].
  split.
  { destruct (generate_spec _ (files_to_add_directories fs))
      as (g' & Hg' & _ & _ & _ & _ & _ & Hs).
    assert (g' = g) by congruence. subst g'.
    now rewrite Hs, length_map, numbered_length. }
  split; [exact Hmain|].
  rewrite patched_length, inserted_length, HB, HR, HG.
  rewrite (no_sources_segment segs Hok Hno), (blocks_spec g Hk). lia.
Qed.

(** ** A run that discovers nothing *)

Lemma seg_output_gen_init s : seg_output gen_init s = seg_kept s.
Proof. destruct s; simpl; rewrite ?app_nil_r; reflexivity. Qed.

Lemma length_lt_neq (xs ys : list string) :
  List.length xs < List.length ys -> xs <> ys.
Proof. intros H ->. lia. Qed.

(** C10. With no file to add, every fragment list is empty and yet the
    pass is not the identity: in each file-reference region the lines that
    hold the folder-type literal and a comment naming one of the five
    categories are left out, everything else being copied; so the output is
    shorter than the manifest by the number of such lines. *)
Theorem empty_run_still_drops (fs : filesystem) (segs : list segment) :
  files_to_add fs = [] ->
  forallb seg_ok segs = true ->
  generate (files_to_add fs) = Ok gen_init
  /\ main fs (manifest segs) = Ok (flat_map seg_kept segs)
  /\ List.length (flat_map seg_kept segs) + List.length (dropped segs)
     = List.length (manifest segs)
  /\ (dropped segs <> [] -> flat_map seg_kept segs <> manifest segs).
Proof.
  intros Hnone Hok.
  assert (Hout : patched gen_init segs = flat_map seg_kept segs).
  { unfold patched. apply flat_map_ext. intros s. apply seg_output_gen_init. }
  assert (Hlen : List.length (flat_map seg_kept segs) + List.length (dropped segs)
                 = List.length (manifest segs)).
  { rewrite <- Hout. rewrite patched_length, inserted_length. simpl. lia. }
  unfold main. rewrite Hnone. simpl. repeat split.
  - rewrite <- Hout. apply main_loop_segments; [exact Hok|reflexivity].
  - exact Hlen.
  - intros Hd. apply length_lt_neq.
    destruct (dropped segs); [congruence|]. simpl in Hlen. lia.
Qed.

(** ** Running the pass on its own output *)

Lemma filter_all (p : string -> bool) l : forallb p l = true -> filter p l = l.
Proof.
  induction l as [|x l IH]; simpl; [reflexivity|].
  intros H. apply andb_true_iff in H as [-> H]. now rewrite IH.
Qed.

Lemma forallb_weaken (p q : string -> bool) l :
  (forall x, p x = true -> q x = true) -> forallb p l = true -> forallb q l = true.
Proof.
  intros Hpq. induction l as [|x l IH]; simpl; [reflexivity|].
  intros H. apply andb_true_iff in H as [Hx H]. now rewrite (Hpq x Hx), IH.
Qed.

Lemma inert_parts g :
  inert g = true ->
  forallb (lacks end_build_file) (build_file_entries g) = true
  /\ forallb (fun l => lacks end_file_ref l && kept l) (file_ref_entries g) = true
  /\ forallb (fun l => seg_ok (Plain l)) (blocks g) = true
  /\ forallb (lacks list_close) (sources_entries g) = true.
Proof.
  unfold inert. intros H. rewrite 3 andb_true_iff in H. tauto.
Qed.

Section SecondRun.

Variable g : gen_state.
Hypothesis Hinert : inert g = true.

Lemma resegment_ok s : seg_ok s = true -> forallb seg_ok (resegment g s) = true.
Proof.
  destruct (inert_parts g Hinert) as (HB & HR & HG & HS).
  destruct s as [l|b body e|b body e|l|b head f body c]; simpl; intros Hok.
  - now rewrite Hok.
  - rewrite 2 andb_true_iff in Hok. destruct Hok as ((-> & Hbody) & ->).
    rewrite forallb_app, Hbody, HB. reflexivity.
  - rewrite 3 andb_true_iff in Hok. destruct Hok as (((-> & ->) & Hbody) & ->).
    rewrite forallb_app.
    rewrite (forallb_weaken _ (lacks end_file_ref) _ (fun x H => proj1 (proj1 (andb_true_iff _ _) H)) HR).
    assert (Hf : forallb (lacks end_file_ref) (filter kept body) = true).
    { apply forallb_forall. intros x Hx. apply filter_In in Hx as [Hx _].
      rewrite forallb_forall in Hbody. auto. }
    rewrite Hf. reflexivity.
  - rewrite forallb_app, seg_ok_plain, HG. cbn [forallb seg_ok].
    rewrite Hok. reflexivity.
  - rewrite 7 andb_true_iff in Hok.
    destruct Hok as (((((((-> & ->) & ->) & ->) & ->) & ->) & Hbody) & ->).
    rewrite forallb_app, Hbody, HS. reflexivity.
Qed.

Lemma resegment_manifest s : manifest (resegment g s) = seg_output g s.
Proof.
  destruct s as [l|b body e|b body e|l|b head f body c];
    unfold manifest; simpl; rewrite ?app_nil_r, <- ?app_assoc; try reflexivity.
  fold (manifest (map Plain (blocks g) ++ [GroupEnd l])).
  rewrite manifest_app, manifest_plain. reflexivity.
Qed.

Lemma resegment_patched s : patched g (resegment g s) = seg_output_twice g s.
Proof.
  destruct (inert_parts g Hinert) as (_ & HR & _ & _).
  destruct s as [l|b body e|b body e|l|b head f body c];
    unfold patched; simpl; rewrite ?app_nil_r, <- ?app_assoc; try reflexivity.
  - rewrite filter_app, filter_twice.
    rewrite (filter_ext (fun x => kept x && kept x) kept)
      by (intros x; apply andb_diag).
    rewrite (filter_all kept (file_ref_entries g)); [now rewrite <- app_assoc|].
    apply (forallb_weaken _ kept _ (fun x H => proj2 (proj1 (andb_true_iff _ _) H)) HR).
  - fold (patched g (map Plain (blocks g) ++ [GroupEnd l])).
    rewrite patched_app, patched_plain. unfold patched. simpl.
    now rewrite app_nil_r.
Qed.

Lemma resegment_all segs :
  forallb seg_ok segs = true ->
  forallb seg_ok (flat_map (resegment g) segs) = true
  /\ manifest (flat_map (resegment g) segs) = patched g segs
  /\ patched g (flat_map (resegment g) segs) = flat_map (seg_output_twice g) segs.
Proof.
  induction segs as [|s segs IH]; simpl; intros Hok; [auto|].
  apply andb_true_iff in Hok as [Hs Hok].
  destruct (IH Hok) as (IH1 & IH2 & IH3).
  rewrite forallb_app, manifest_app, patched_app.
  rewrite (resegment_ok s Hs), IH1, resegment_manifest, resegment_patched, IH3.
  rewrite IH2. auto.
Qed.

Lemma twice_length segs :
  List.length (flat_map (seg_output_twice g) segs)
  = List.length (patched g segs) + List.length (inserted g segs).
Proof.
  unfold patched, inserted.
  induction segs as [|s segs IH]; simpl; [reflexivity|].
  rewrite !length_app, IH.
  destruct s; simpl; repeat (rewrite ?length_app; simpl); lia.
Qed.

End SecondRun.

(** ** Fragments made from plain names carry no marker *)

(** If [m] is a prefix of [f ++ t] and [f] has no [c], then [f] is a part
    of [m] before its first [c], and the rest of [m] is a prefix of [t]. *)
Lemma prefix_var c f : forall m t,
  lacks_char c f = true ->
  prefix m (f ++ t) = true ->
  exists j, j <= first_index c m /\ prefix (drop j m) t = true.
Proof.
  induction f as [|a f IH]; intros m t Hf Hp.
  - exists 0. split; [lia|]. destruct m; exact Hp.
  - cbn [lacks_char] in Hf. apply andb_true_iff in Hf as [Ha Hf].
    apply negb_true_iff in Ha.
    destruct m as [|b m].
    + exists 0. split; [lia|]. destruct t; reflexivity.
    + cbn [append prefix] in Hp.
      destruct (ascii_dec b a) as [->|]; [|discriminate].
      destruct (IH m t Hf Hp) as (j & Hj & Hd).
      exists (S j). cbn [first_index drop]. rewrite Ha. split; [lia|exact Hd].
Qed.

Lemma prefix_var_false c f m t :
  lacks_char c f = true ->
  straddles c m t = false ->
  prefix m (f ++ t) = false.
Proof.
  intros Hf Hs. destruct (prefix m (f ++ t)) eqn:Hp; [|reflexivity].
  destruct (prefix_var c f m t Hf Hp) as (j & Hj & Hd).
  unfold straddles in Hs. rewrite <- Hs. symmetry. apply existsb_exists.
  exists j. split; [|exact Hd]. apply in_seq. lia.
Qed.

(** A marker that cannot straddle the end of [f] occurs in [f ++ t] only
    if it occurs in [t]. *)
Lemma contains_var c f m t :
  lacks_char c f = true ->
  straddles c m t = false ->
  contains m (f ++ t) = contains m t.
Proof.
  intros Hf Hs. induction f as [|a f IH]; [reflexivity|].
  cbn [append contains].
  change (String a (f ++ t)) with (String a f ++ t)%string.
  rewrite (prefix_var_false c (String a f) m t Hf Hs).
  cbn [lacks_char] in Hf. apply andb_true_iff in Hf as [_ Hf]. auto.
Qed.

Lemma append_assoc (a b c : string) : ((a ++ b) ++ c = a ++ (b ++ c))%string.
Proof. induction a as [|x a IH]; simpl; congruence. Qed.

Ltac side := first [assumption | vm_compute; reflexivity].

(** Walks along a fragment: literal text is searched by computation, an
    identifier or a file name is stepped over with the two lemmas above. *)
Ltac scan_line :=
  repeat first
    [ progress cbn
    | rewrite (contains_var "/"%char) by side
    | rewrite (contains_var "A"%char) by side
    | rewrite (contains_var ")"%char) by side
    | rewrite (contains_var "l"%char) by side
    | rewrite (contains_var ";"%char) by side
    | rewrite (prefix_var_false "/"%char) by side
    | rewrite (prefix_var_false ";"%char) by side ].

Lemma id_like_parts s : id_like s = true ->
  lacks_char "/" s = true /\ lacks_char "A" s = true
  /\ lacks_char ")" s = true /\ lacks_char "l" s = true.
Proof. unfold id_like. rewrite !andb_true_iff. tauto. Qed.

Section Inert.

Variables fid bid stem : string.
Hypothesis Hfid : id_like fid = true.
Hypothesis Hbid : id_like bid = true.
Hypothesis Hslash : lacks_char "/" stem = true.
Hypothesis Hsemi : lacks_char ";" stem = true.

Ltac split_id H :=
  let H1 := fresh in let H2 := fresh in let H3 := fresh in let H4 := fresh in
  destruct (id_like_parts _ H) as (H1 & H2 & H3 & H4).

Lemma group_entry_inert :
  seg_ok (Plain (group_entry fid (stem ++ ".swift"))) = true.
Proof.
  split_id Hfid.
  unfold seg_ok, lacks, group_entry, begin_build_file, begin_file_ref,
    end_group, sources_phase, TAB, NL.
  rewrite !append_assoc. scan_line. reflexivity.
Qed.

Lemma build_file_entry_inert :
  lacks end_build_file (build_file_entry bid fid (stem ++ ".swift")) = true.
Proof.
  split_id Hfid. split_id Hbid.
  unfold lacks, build_file_entry, end_build_file, TAB, NL.
  rewrite !append_assoc. scan_line. reflexivity.
Qed.

Lemma file_ref_entry_inert :
  lacks end_file_ref (file_ref_entry fid (stem ++ ".swift"))
  && kept (file_ref_entry fid (stem ++ ".swift")) = true.
Proof.
  split_id Hfid.
  unfold kept, is_folder_ref, lacks, file_ref_entry, end_file_ref, TAB, NL, DQ.
  rewrite !append_assoc. scan_line. reflexivity.
Qed.

Lemma sources_entry_inert :
  lacks list_close (sources_entry bid (stem ++ ".swift")) = true.
Proof.
  split_id Hbid.
  unfold lacks, sources_entry, list_close, TAB, NL.
  rewrite !append_assoc. scan_line. reflexivity.
Qed.

End Inert.

Lemma lacks_char_app c a b :
  lacks_char c (a ++ b) = lacks_char c a && lacks_char c b.
Proof.
  induction a as [|x a IH]; [reflexivity|].
  cbn [append lacks_char]. now rewrite IH, andb_assoc.
Qed.

Lemma lacks_char_zeros c k : lacks_char c "0" = true -> lacks_char c (zeros k) = true.
Proof.
  intros H. induction k as [|k IH]; [reflexivity|].
  cbn [zeros lacks_char] in *. rewrite IH.
  now apply andb_true_iff in H as [-> _].
Qed.

Lemma lacks_char_digits c n :
  lacks_char c "0123456789" = true -> lacks_char c (digits n) = true.
Proof.
  intros H. cbn [lacks_char] in H. rewrite !andb_true_iff in H.
  destruct H as (H0 & H1 & H2 & H3 & H4 & H5 & H6 & H7 & H8 & H9 & _).
  unfold digits. induction (N.to_uint n) as [|d IH|d IH|d IH|d IH|d IH|d IH|d IH|d IH|d IH|d IH];
    cbn [NilEmpty.string_of_uint lacks_char]; rewrite ?IH, ?H0, ?H1, ?H2, ?H3, ?H4, ?H5, ?H6, ?H7, ?H8, ?H9;
    reflexivity.
Qed.

Lemma lacks_char_generate_id c prefix n :
  lacks_char c prefix = true ->
  lacks_char c "-0123456789" = true ->
  lacks_char c (generate_id prefix n) = true.
Proof.
  intros Hp H. unfold generate_id, format_020d.
  assert (Hd : lacks_char c "0123456789" = true).
  { cbn [lacks_char] in H. apply andb_true_iff in H as [_ H]. exact H. }
  assert (Hz : lacks_char c "0" = true).
  { cbn [lacks_char] in Hd |- *. apply andb_true_iff in Hd as [-> _]. reflexivity. }
  assert (Hm : lacks_char c "-" = true).
  { cbn [lacks_char] in H |- *. apply andb_true_iff in H as [-> _]. reflexivity. }
  destruct (n <? 0)%Z;
    rewrite !lacks_char_app, Hp, ?Hm, lacks_char_zeros, lacks_char_digits; auto.
Qed.

Lemma id_like_generate_id prefix n :
  id_like prefix = true -> id_like (generate_id prefix n) = true.
Proof.
  intros H. destruct (id_like_parts _ H) as (H1 & H2 & H3 & H4).
  unfold id_like. rewrite !lacks_char_generate_id; auto.
Qed.

Lemma numbered_in c' file files : forall c,
  In (c', file) (numbered c files) -> In file files.
Proof.
  induction files as [|f files IH]; intros c; simpl; [auto|].
  intros [[= _ <-]|H]; [auto|]. right. eapply IH, H.
Qed.

Lemma dict_append_all P k x d : forall d',
  dict_append k x d = Ok d' -> P x -> all_values P d -> all_values P d'.
Proof.
  unfold all_values.
  induction d as [|[k' v] d IH]; simpl; intros d' H Hx Hd; [discriminate|].
  inversion Hd as [|? ? Hv Hd']; subst. simpl in Hv.
  destruct (String.eqb k k').
  - injection H as <-. constructor; [|exact Hd'].
    simpl. apply Forall_app. split; [exact Hv|]. now constructor.
  - destruct (dict_append k x d) as [d''|]; simpl in H; [|discriminate].
    injection H as <-. constructor; [exact Hv|]. now apply IH.
Qed.

Lemma dict_get_all P k d v :
  dict_get k d = Ok v -> all_values P d -> Forall P v.
Proof.
  unfold all_values.
  induction d as [|[k' v'] d IH]; simpl; intros H Hd; [discriminate|].
  inversion Hd as [|? ? Hv Hd']; subst. simpl in Hv.
  destruct (String.eqb k k'); [injection H as <-; exact Hv|auto].
Qed.

Lemma gen_loop_group_all P files : forall st st',
  gen_loop st files = Ok st' ->
  Forall (fun file => forall c, P (group_entry (generate_id "BB" c) (snd file))) files ->
  all_values P (group_entries st) ->
  all_values P (group_entries st').
Proof.
  induction files as [|[d f] files IH]; simpl; intros st st' H Hfiles Hst.
  - injection H as <-. exact Hst.
  - inversion Hfiles as [|? ? Hf Hrest]; subst. simpl in Hf.
    destruct (dict_append d _ (group_entries st)) as [d'|] eqn:Happ; simpl in H; [|discriminate].
    apply (IH _ _ H Hrest). simpl.
    eapply dict_append_all; [exact Happ|apply Hf|exact Hst].
Qed.

Lemma files_to_add_swift fs d n :
  In (d, n) (files_to_add fs) -> exists stem, n = (stem ++ ".swift")%string.
Proof.
  unfold files_to_add, swift_files. intros H.
  apply filter_In in H as [H _].
  apply in_flat_map in H as (d' & _ & H).
  destruct (exists_ (fs d')); [|contradiction].
  apply in_map_iff in H as (n' & [= _ <-] & H).
  apply (Permutation_in _ (sorted_perm _)) in H.
  destruct (fs d') as [| |entries]; simpl in H; try contradiction.
  apply filter_In in H as [_ H]. now apply ends_with_spec.
Qed.

Lemma plain_stem stem suffix :
  plain_name (stem ++ suffix) = true ->
  lacks_char "/" stem = true /\ lacks_char ";" stem = true.
Proof.
  unfold plain_name. rewrite !lacks_char_app, !andb_true_iff. tauto.
Qed.

Lemma spec_group_block_inert g d id :
  seg_ok (Plain (TAB ++ TAB ++ id ++ " /* " ++ d ++ " */ = {" ++ NL)) = true ->
  seg_ok (Plain (TAB ++ TAB ++ TAB ++ "path = " ++ d ++ ";" ++ NL)) = true ->
  all_values (fun l => seg_ok (Plain l) = true) (group_entries g) ->
  forallb (fun l => seg_ok (Plain l)) (spec_group_block g d id) = true.
Proof.
  intros Hhead Hpath Hall. unfold spec_group_block, children_of.
  destruct (dict_get d (group_entries g)) as [v|] eqn:Hv; [|reflexivity].
  pose proof (dict_get_all _ _ _ _ Hv Hall) as Hch.
  destruct v as [|x v]; [reflexivity|].
  rewrite !forallb_app. cbn [forallb]. rewrite Hhead, Hpath.
  apply Forall_forall with (x := x) in Hch as Hx; [|now left].
  rewrite Hx.
  assert (Hvs : forallb (fun l => seg_ok (Plain l)) v = true).
  { apply forallb_forall. intros y Hy. rewrite Forall_forall in Hch. apply Hch. now right. }
  rewrite Hvs. reflexivity.
Qed.

Lemma generated_inert fs g :
  generate (files_to_add fs) = Ok g -> plain_names fs = true -> inert g = true.
Proof.
  intros Hg Hplain. unfold plain_names in Hplain.
  rewrite forallb_forall in Hplain.
  destruct (generate_spec _ (files_to_add_directories fs))
    as (g' & Hg' & Hk & _ & _ & Hf & Hb & Hs).
  assert (g' = g) by congruence. subst g'.
  assert (Hstem : forall c file, In (c, file) (numbered 5000 (files_to_add fs)) ->
            exists stem, snd file = (stem ++ ".swift")%string
                         /\ lacks_char "/" stem = true /\ lacks_char ";" stem = true).
  { intros c [d n] Hin. apply numbered_in in Hin.
    destruct (files_to_add_swift _ _ _ Hin) as (stem & ->).
    exists stem. split; [reflexivity|]. apply (plain_stem stem ".swift").
    apply (Hplain _ Hin). }
  unfold inert. rewrite !andb_true_iff. repeat split.
  - rewrite Hb. apply forallb_forall. intros x Hx.
    apply in_map_iff in Hx as ([c file] & <- & Hin).
    destruct (Hstem _ _ Hin) as (stem & Heq & H1 & H2). simpl. rewrite Heq.
    apply build_file_entry_inert; auto using id_like_generate_id.
  - rewrite Hf. apply forallb_forall. intros x Hx.
    apply in_map_iff in Hx as ([c file] & <- & Hin).
    destruct (Hstem _ _ Hin) as (stem & Heq & H1 & H2). simpl. rewrite Heq.
    apply file_ref_entry_inert; auto using id_like_generate_id.
  - rewrite (blocks_spec g Hk).
    assert (Hall : all_values (fun l => seg_ok (Plain l) = true) (group_entries g)).
    { apply (gen_loop_group_all _ (files_to_add fs) gen_init g Hg).
      - apply Forall_forall. intros [d n] Hin c.
        destruct (files_to_add_swift _ _ _ Hin) as (stem & ->).
        destruct (plain_stem stem ".swift" (Hplain _ Hin)) as (H1 & H2).
        simpl. apply group_entry_inert; auto using id_like_generate_id.
      - unfold all_values. simpl. repeat constructor. }
    unfold spec_group_blocks. rewrite !forallb_app.
    rewrite !spec_group_block_inert; auto.
  - rewrite Hs. apply forallb_forall. intros x Hx.
    apply in_map_iff in Hx as ([c file] & <- & Hin).
    destruct (Hstem _ _ Hin) as (stem & Heq & H1 & H2). simpl. rewrite Heq.
    apply sources_entry_inert; auto using id_like_generate_id.
Qed.

(** C9. The pass is not idempotent.  When the discovered file names are
    plain (no slash, no semicolon), a second run on the output of the
    first, with the same discovered files, succeeds and writes every
    fragment list a second time at its injection point; the twice-patched
    manifest is longer than the once-patched one by all the inserted lines,
    hence different from it as soon as the first run inserted anything. *)
Theorem second_run_duplicates (fs : filesystem) (segs : list segment) :
  plain_names fs = true ->
  forallb seg_ok segs = true ->
  exists g,
    generate (files_to_add fs) = Ok g
    /\ main fs (manifest segs) = Ok (patched g segs)
    /\ main fs (patched g segs) = Ok (flat_map (seg_output_twice g) segs)
    /\ List.length (flat_map (seg_output_twice g) segs)
       = List.length (patched g segs) + List.length (inserted g segs)
    /\ (inserted g segs <> [] ->
        flat_map (seg_output_twice g) segs <> patched g segs).
Proof.
  intros Hplain Hok.
  destruct (main_generated fs) as (g & Hg & Hkeys & _ & Hmain).
  pose proof (generated_inert fs g Hg Hplain) as Hinert.
  destruct (resegment_all g Hinert segs Hok) as (Hok2 & Hm2 & Hp2).
  exists g. split; [exact Hg|].
  rewrite !Hmain. repeat split.
  - now apply main_loop_segments.
  - rewrite <- Hm2, <- Hp2. now apply main_loop_segments.
  - apply twice_length.
  - intros Hins Heq. apply (f_equal (@List.length string)) in Heq.
    rewrite twice_length in Heq. destruct (inserted g segs); [congruence|].
    simpl in Heq. lia.
Qed.

(** ** The two-file scenario *)

Lemma listing_wanted fs d : Permutation (listing fs d) (wanted (fs d)).
Proof.
  unfold listing, wanted. destruct (fs d) as [| |entries]; simpl; try constructor.
  apply filter_perm, sorted_perm.
Qed.

Lemma listing_nil fs d : wanted (fs d) = [] -> listing fs d = [].
Proof.
  intros H. pose proof (listing_wanted fs d) as P. rewrite H in P.
  now apply Permutation_sym, Permutation_nil in P.
Qed.

Lemma listing_one fs d x : wanted (fs d) = [x] -> listing fs d = [x].
Proof.
  intros H. pose proof (listing_wanted fs d) as P. rewrite H in P.
  now apply Permutation_sym, Permutation_length_1_inv in P.
Qed.

(** C7, as amended.  With exactly one kept file [a] in Views and one [b]
    in Models, discovery yields Views/a then Models/b; the run generates
    two file-reference lines (not four), two build-file lines and two
    sources-phase lines; and on a manifest made of regions the output has,
    in each region, those lines at the injection point, and before the End
    PBXGroup line two group blocks, Models then Views. *)
Theorem two_files_scenario
    (fs : filesystem) (a b : string) (segs : list segment) :
  wanted (fs "Views") = [a] ->
  wanted (fs "ViewModels") = [] ->
  wanted (fs "Models") = [b] ->
  wanted (fs "Services") = [] ->
  wanted (fs "Components") = [] ->
  forallb seg_ok segs = true ->
  files_to_add fs = [("Views", a); ("Models", b)]
  /\ generate (files_to_add fs) = Ok (two_files_gen a b)
  /\ List.length (file_ref_entries (two_files_gen a b)) = 2
  /\ List.length (build_file_entries (two_files_gen a b)) = 2
  /\ List.length (sources_entries (two_files_gen a b)) = 2
  /\ blocks (two_files_gen a b)
     = group_block "Models" "AA0000100000000000000001"
         [group_entry (generate_id "BB" 5001) b]
       ++ group_block "Views" "AA0000120000000000000001"
            [group_entry (generate_id "BB" 5000) a]
  /\ main fs (manifest segs) = Ok (patched (two_files_gen a b) segs).
Proof.
  intros HV HVM HM HS HC Hok.
  assert (Hfiles : files_to_add fs = [("Views", a); ("Models", b)]).
  { rewrite files_to_add_listing. unfold directories. cbn [flat_map].
    rewrite (listing_one _ _ _ HV), (listing_nil _ _ HVM), (listing_one _ _ _ HM),
      (listing_nil _ _ HS), (listing_nil _ _ HC).
    reflexivity. }
  assert (Hgen : generate (files_to_add fs) = Ok (two_files_gen a b)).
  { rewrite Hfiles. reflexivity. }
  repeat split; try assumption; try reflexivity.
  unfold main. rewrite Hgen. cbn [bind].
  apply main_loop_segments; [exact Hok|reflexivity].
Qed.

(** ** The worked runs *)

Lemma sample_generate : generate (files_to_add sample_fs) = Ok sample_gen.
Proof. vm_compute. reflexivity. Qed.

Lemma frame_preserved_witness :
  main sample_fs (manifest sample_segs) = Ok (patched sample_gen sample_segs)
  /\ exists g,
       generate (files_to_add sample_fs) = Ok g
       /\ spliced g Outside (manifest sample_segs) (patched sample_gen sample_segs)
       /\ (forall out',
             spliced g Outside (manifest sample_segs) out' ->
             out' = patched sample_gen sample_segs)
       /\ subsequence (filter (fun l => negb (is_folder_ref l)) (manifest sample_segs))
            (patched sample_gen sample_segs).
Proof.
  assert (H : main sample_fs (manifest sample_segs)
              = Ok (patched sample_gen sample_segs)) by (vm_compute; reflexivity).
  split; [exact H|]. exact (frame_preserved _ _ _ H).
Defined.

(** C5 as first stated fails here: the manifest has the End PBXGroup marker, the
    run completes and has group blocks to write, and the output has them
    nowhere. *)
Lemma group_marker_swallowed :
  existsb (contains end_group) swallowed_manifest = true
  /\ spec_group_blocks sample_gen <> []
  /\ exists out,
       main sample_fs swallowed_manifest = Ok out
       /\ ~ (exists o1 o2 l,
                contains end_group l = true
                /\ out = o1 ++ spec_group_blocks sample_gen ++ l :: o2).
Proof.
  split; [reflexivity|]. split; [discriminate|].
  eexists. split; [vm_compute; reflexivity|].
  intros (o1 & o2 & l & _ & H).
  apply (f_equal (@List.length string)) in H.
  rewrite !length_app in H.
  change (List.length (spec_group_blocks sample_gen)) with 16 in H.
  simpl in H. lia.
Qed.

Lemma group_blocks_before_marker_witness :
  exists g,
    generate (files_to_add sample_fs) = Ok g
    /\ main sample_fs
         (manifest [build_region] ++ ln "/* End PBXGroup section */" :: manifest [sources_region])
       = Ok (patched sample_gen [build_region] ++ spec_group_blocks g
             ++ ln "/* End PBXGroup section */" :: patched sample_gen [sources_region]).
Proof.
  apply (group_blocks_before_marker sample_fs
           (manifest [build_region]) (manifest [sources_region])
           (patched sample_gen [build_region]) (patched sample_gen [sources_region])
           (ln "/* End PBXGroup section */")).
  - vm_compute. reflexivity.
  - vm_compute. reflexivity.
  - reflexivity.
  - reflexivity.
  - reflexivity.
Defined.

(** C7 as first stated fails here: two files, all four regions present, and the
    output gains two lines that carry a file reference, not four. *)
Lemma four_file_reference_lines_refuted :
  files_to_add sample_fs = [("Views", "A.swift"); ("Models", "B.swift")]
  /\ exists out,
       main sample_fs (manifest clean_segs) = Ok out
       /\ List.length out = List.length (manifest clean_segs) + 2 + 2 + 2 + 16
       /\ count_lines "isa = PBXFileReference;" out
          = count_lines "isa = PBXFileReference;" (manifest clean_segs) + 2
       /\ count_lines "isa = PBXFileReference;" out
          <> count_lines "isa = PBXFileReference;" (manifest clean_segs) + 4.
Proof.
  split; [vm_compute; reflexivity|].
  eexists. split; [vm_compute; reflexivity|].
  split; [reflexivity|]. split; [reflexivity|]. vm_compute. discriminate.
Qed.

Lemma two_files_scenario_witness :
  files_to_add sample_fs = [("Views", "A.swift"); ("Models", "B.swift")]
  /\ main sample_fs (manifest sample_segs) = Ok (patched sample_gen sample_segs).
Proof.
  destruct (two_files_scenario sample_fs "A.swift" "B.swift" sample_segs)
    as (Hfiles & _ & _ & _ & _ & _ & Hmain);
    try reflexivity.
  split; [exact Hfiles|exact Hmain].
Defined.

(** C8 as first stated fails here: no sources-phase marker, the three other
    regions present, and a folder reference in the file-reference region;
    the output is one line short of input plus insertions. *)
Lemma growth_short_by_dropped_line :
  forallb (lacks sources_phase) (manifest no_sources_segs) = true
  /\ exists out,
       main sample_fs (manifest no_sources_segs) = Ok out
       /\ List.length out
          <> List.length (manifest no_sources_segs)
             + (List.length (file_ref_entries sample_gen)
                + List.length (build_file_entries sample_gen)
                + List.length (spec_group_blocks sample_gen)).
Proof.
  split; [reflexivity|].
  eexists. split; [vm_compute; reflexivity|].
  vm_compute. discriminate.
Qed.

Lemma growth_without_sources_phase_witness :
  exists g out,
    generate (files_to_add sample_fs) = Ok g
    /\ List.length (sources_entries g) = List.length (files_to_add sample_fs)
    /\ main sample_fs (manifest no_sources_segs) = Ok out
    /\ List.length out + List.length (dropped no_sources_segs)
       = List.length (manifest no_sources_segs)
         + List.length (file_ref_entries g)
         + List.length (build_file_entries g)
         + List.length (spec_group_blocks g).
Proof.
  apply (growth_without_sources_phase sample_fs no_sources_segs); reflexivity.
Defined.

Lemma second_run_duplicates_witness :
  main sample_fs (patched sample_gen sample_segs)
  = Ok (flat_map (seg_output_twice sample_gen) sample_segs)
  /\ flat_map (seg_output_twice sample_gen) sample_segs <> patched sample_gen sample_segs
  /\ forallb (fun l => Nat.eqb (occurs l (flat_map (seg_output_twice sample_gen) sample_segs)) 2)
       (file_ref_entries sample_gen ++ build_file_entries sample_gen
        ++ sources_entries sample_gen
        ++ children_of sample_gen "Views" ++ children_of sample_gen "Models")
     = true.
Proof.
  destruct (second_run_duplicates sample_fs sample_segs)
    as (g & Hg & _ & Hsecond & _ & Hneq).
  - reflexivity.
  - reflexivity.
  - assert (Hsample : generate (files_to_add sample_fs) = Ok sample_gen)
      by (vm_compute; reflexivity).
    assert (g = sample_gen) by congruence. subst g.
    split; [exact Hsecond|]. split; [apply Hneq; discriminate|].
    vm_compute. reflexivity.
Defined.

Lemma empty_run_still_drops_witness :
  main empty_fs (manifest sample_segs) = Ok (flat_map seg_kept sample_segs)
  /\ flat_map seg_kept sample_segs <> manifest sample_segs.
Proof.
  destruct (empty_run_still_drops empty_fs sample_segs)
    as (_ & Hmain & _ & Hneq); try reflexivity.
  split; [exact Hmain|]. apply Hneq. discriminate.
Defined.

(** * Further properties *)

Lemma prefix_append p s : prefix p (p ++ s) = true.
Proof.
  induction p as [|a p IH]; [now destruct s|].
  cbn [append prefix]. destruct (ascii_dec a a); [exact IH|congruence].
Qed.

Lemma drop_append p s : drop (String.length p) (p ++ s) = s.
Proof. induction p as [|a p IH]; [now destruct s|exact IH]. Qed.

(** X1. An identifier can be read back: for a counter that is not
    negative, checking and removing the prefix and reading the digits of
    [generate_id prefix counter] gives the counter again, however many
    digits it has. *)
Theorem generate_id_round_trip (prefix : string) (counter : Z) :
  (0 <= counter)%Z ->
  decode_id prefix (generate_id prefix counter) = Some (Z.to_N counter).
Proof.
  intros H. unfold decode_id, generate_id.
  rewrite prefix_append, drop_append. now apply read_format_020d.
Qed.

Lemma generate_id_round_trip_witness :
  decode_id "BB" (generate_id "BB" 5000) = Some 5000%N.
Proof. apply (generate_id_round_trip "BB" 5000). lia. Defined.

Lemma string_length_append a b :
  String.length (a ++ b) = String.length a + String.length b.
Proof. induction a as [|x a IH]; simpl; [reflexivity|now rewrite IH]. Qed.

Lemma string_length_zeros k : String.length (zeros k) = k.
Proof. induction k; simpl; congruence. Qed.

Lemma string_of_uint_length d :
  String.length (NilEmpty.string_of_uint d) = Decimal.nb_digits d.
Proof. induction d; simpl; congruence. Qed.

Lemma of_uint_acc_lower l : forall acc,
  (N.pos acc * 10 ^ N.of_nat (Decimal.nb_digits l) <= N.pos (Pos.of_uint_acc l acc))%N.
Proof.
  induction l; intros acc; cbn [Pos.of_uint_acc Decimal.nb_digits];
    try (rewrite N.pow_0_r; lia);
    rewrite Nat2N.inj_succ, N.pow_succ_r';
    match goal with |- context [Pos.of_uint_acc l ?a] => specialize (IHl a) end;
    nia.
Qed.

Lemma to_uint_digits_bound n k :
  1 <= k -> (n < 10 ^ N.of_nat k)%N -> Decimal.nb_digits (N.to_uint n) <= k.
Proof.
  intros Hk Hn.
  pose proof (DecimalN.Unsigned.of_to n) as Hof.
  pose proof (DecimalN.Unsigned.to_of (N.to_uint n)) as Hnorm.
  rewrite Hof in Hnorm.
  destruct (N.to_uint n) as [|l|l|l|l|l|l|l|l|l|l] eqn:He;
    try (cbn [Decimal.nb_digits]; lia);
    try (destruct (Nat.le_gt_cases (S (Decimal.nb_digits l)) k) as [Hle|Hgt];
         [exact Hle|exfalso];
         unfold N.of_uint in Hof; cbn [Pos.of_uint] in Hof;
         match type of Hof with N.pos (Pos.of_uint_acc l ?a) = _ =>
           pose proof (of_uint_acc_lower l a) as Hlow end;
         rewrite Hof in Hlow;
         assert (Hpow : (10 ^ N.of_nat k <= 10 ^ N.of_nat (Decimal.nb_digits l))%N)
           by (apply N.pow_le_mono_r; lia);
         nia).
  (* a leading zero: the number is 0 *)
  destruct l as [|l'|l'|l'|l'|l'|l'|l'|l'|l'|l'];
    try (cbn [Decimal.nb_digits]; lia);
    exfalso;
    match type of Hnorm with Decimal.D0 ?x = _ =>
      assert (Hx : x <> Decimal.Nil) by discriminate;
      pose proof (DecimalFacts.nb_digits_unorm x Hx) as Hb
    end;
    change (Decimal.unorm (Decimal.D0 ?x)) with (Decimal.unorm x) in Hnorm;
    rewrite <- Hnorm in Hb; cbn [Decimal.nb_digits] in Hb; lia.
Qed.

(** X2. For a counter from 0 to 10^20 - 1 the identifier is the prefix
    followed by exactly twenty characters: shorter numbers are filled with
    zeros and none is cut. *)
Theorem generate_id_width (prefix : string) (counter : Z) :
  (0 <= counter < 10 ^ 20)%Z ->
  String.length (generate_id prefix counter) = String.length prefix + 20.
Proof.
  intros [H0 H1]. unfold generate_id, format_020d.
  destruct (Z.ltb_spec counter 0); [lia|].
  rewrite !string_length_append, string_length_zeros.
  assert (Hd : String.length (digits (Z.abs_N counter)) <= 20).
  { unfold digits. rewrite string_of_uint_length.
    apply to_uint_digits_bound; [lia|]. 
    change (10 ^ N.of_nat 20)%N with (Z.to_N (10 ^ 20)). lia. }
  lia.
Qed.

Lemma generate_id_width_witness :
  String.length (generate_id "CC" 5001) = 22.
Proof.
  apply (generate_id_width "CC" 5001). split; [lia|reflexivity].
Defined.

Lemma dict_append_missing k x d :
  ~ In k (map fst d) -> dict_append k x d = Raise KeyError.
Proof.
  induction d as [|[k' v] d IH]; simpl; intros H; [reflexivity|].
  destruct (String.eqb_spec k k') as [->|Hne]; [tauto|].
  rewrite IH; [reflexivity|tauto].
Qed.

Lemma gen_loop_key_error files : forall st,
  Exists (fun file => ~ In (fst file) (map fst (group_entries st))) files ->
  gen_loop st files = Raise KeyError.
Proof.
  induction files as [|[d f] files IH]; intros st H; [inversion H|].
  simpl.
  destruct (in_dec string_dec d (map fst (group_entries st))) as [Hin|Hout].
  - destruct (dict_append_ok d (group_entry (generate_id "BB" (counter st)) f)
                (group_entries st) Hin) as (d' & -> & Hkeys & _).
    simpl. apply IH. simpl. rewrite Hkeys.
    inversion H as [? ? Hbad|? ? Hrest]; subst; [simpl in Hbad; tauto|exact Hrest].
  - now rewrite dict_append_missing.
Qed.

(** X3. The generation loop raises KeyError exactly when some file names a
    directory that is not one of the five keys of [group_entries], and
    returns its fragments exactly when every file names one of them. *)
Theorem generate_key_error (files : list source_file) :
  (generate files = Raise KeyError
   <-> Exists (fun file => ~ In (fst file) directories) files)
  /\ ((exists g, generate files = Ok g)
      <-> Forall (fun file => In (fst file) directories) files).
Proof.
  assert (Hdec : Forall (fun file => In (fst file) directories) files
                 \/ Exists (fun file => ~ In (fst file) directories) files).
  { induction files as [|file files IH]; [left; constructor|].
    destruct (in_dec string_dec (fst file) directories) as [Hin|Hout].
    - destruct IH as [IH|IH]; [left; now constructor|right; now constructor].
    - right. now constructor. }
  assert (Hbad : Exists (fun file => ~ In (fst file) directories) files ->
                 generate files = Raise KeyError).
  { intros H. unfold generate. apply gen_loop_key_error. exact H. }
  assert (Hgood : Forall (fun file => In (fst file) directories) files ->
                  exists g, generate files = Ok g).
  { intros H. destruct (generate_spec files H) as (g & Hg & _). eauto. }
  split; split.
  - intros Hraise. destruct Hdec as [Hall|Hex]; [|exact Hex].
    destruct (Hgood Hall) as (g & Hg). congruence.
  - exact Hbad.
  - intros (g & Hg). destruct Hdec as [Hall|Hex]; [exact Hall|].
    rewrite (Hbad Hex) in Hg. discriminate.
  - exact Hgood.
Qed.

Lemma dict_append_get k x d d' k' :
  dict_append k x d = Ok d' ->
  dict_get k' d' =
  if String.eqb k' k
  then v <- dict_get k' d ;; Ok (v ++ [x])
  else dict_get k' d.
Proof.
  revert d'. induction d as [|[k0 v0] d IH]; simpl; intros d' H; [discriminate|].
  destruct (String.eqb k k0) eqn:Hk.
  - apply String.eqb_eq in Hk. subst k0. injection H as <-. simpl.
    destruct (String.eqb k' k); reflexivity.
  - destruct (dict_append k x d) as [d''|] eqn:Happ; simpl in H; [|discriminate].
    injection H as <-. simpl.
    destruct (String.eqb k' k0) eqn:Hk'.
    + apply String.eqb_eq in Hk'. subst k0.
      rewrite String.eqb_sym, Hk. reflexivity.
    + apply IH. reflexivity.
Qed.

Lemma gen_loop_group_get category files : forall st st' v,
  gen_loop st files = Ok st' ->
  dict_get category (group_entries st) = Ok v ->
  dict_get category (group_entries st')
  = Ok (v ++ map (fun cf => group_entry (generate_id "BB" (fst cf)) (snd (snd cf)))
               (filter (in_category category) (numbered (counter st) files))).
Proof.
  induction files as [|[d f] files IH]; simpl; intros st st' v H Hv.
  - injection H as <-. now rewrite app_nil_r.
  - destruct (dict_append d _ (group_entries st)) as [d'|] eqn:Happ; simpl in H; [|discriminate].
    pose proof (dict_append_get _ _ _ _ category Happ) as Hget.
    rewrite Hv in Hget. simpl in Hget.
    unfold in_category at 1. simpl.
    rewrite String.eqb_sym.
    destruct (String.eqb category d) eqn:Hd.
    + erewrite (IH _ _ _ H); [|simpl; exact Hget]. simpl.
      now rewrite <- app_assoc.
    + erewrite (IH _ _ _ H); [|simpl; exact Hget]. reflexivity.
Qed.

(** X4. After generation, the group-child list of a category holds one
    line per discovered file of that category and no other, in discovery
    order, each carrying the file-reference identifier made from the
    counter value at which that file was processed. *)
Theorem group_entries_by_category (fs : filesystem) (category : string) :
  In category directories ->
  exists g,
    generate (files_to_add fs) = Ok g
    /\ dict_get category (group_entries g)
       = Ok (map (fun cf => group_entry (generate_id "BB" (fst cf)) (snd (snd cf)))
               (filter (in_category category) (numbered 5000 (files_to_add fs)))).
Proof.
  intros Hin.
  destruct (generate_discovered fs) as (g & Hg & _).
  exists g. split; [exact Hg|].
  assert (Hinit : dict_get category (group_entries gen_init) = Ok []).
  { unfold directories in Hin. simpl in Hin.
    destruct Hin as [<-|[<-|[<-|[<-|[<-|[]]]]]]; reflexivity. }
  exact (gen_loop_group_get category _ _ _ _ Hg Hinit).
Qed.

Lemma group_entries_by_category_witness :
  exists g,
    generate (files_to_add sample_fs) = Ok g
    /\ dict_get "Models" (group_entries g)
       = Ok (map (fun cf => group_entry (generate_id "BB" (fst cf)) (snd (snd cf)))
               (filter (in_category "Models") (numbered 5000 (files_to_add sample_fs)))).
Proof.
  apply (group_entries_by_category sample_fs "Models"). simpl. tauto.
Defined.

Lemma main_raise_is_index_error (fs : filesystem) (lines : list string) (e : exn) :
  main fs lines = Raise e -> e = IndexError.
Proof.
  destruct (main_generated fs) as (g & _ & Hkeys & _ & Hmain).
  rewrite Hmain. clear Hmain. revert e.
  induction lines as [|line rest IH] using lines_ind; intros e H.
  - simp main_loop in H. discriminate.
  - rewrite main_loop_cons in H.
    destruct (step g line rest) as [[o rest']|e'] eqn:Hstep.
    + destruct (step_inv _ _ _ _ _ Hstep) as (s & _ & _ & Hl & _).
      unfold emit in H.
      destruct (main_loop g rest') as [o'|e''] eqn:Hrest; simpl in H; [discriminate|].
      injection H as <-.
      apply (IH rest' (seg_lines_app_length _ _ _ _ Hl)). exact Hrest.
    + injection H as <-. unfold step in Hstep.
      rewrite (blocks_ok g Hkeys) in Hstep. simpl in Hstep.
      repeat match type of Hstep with
             | (if ?c then _ else _) = _ => destruct c
             | (let (_, _) := ?p in _) = _ => destruct p as [? [|? ?]]
             end; congruence.
Qed.

(** X5. A run either completes with an output or raises IndexError: the
    dict lookups of lines 70 and 124 never raise KeyError in [main]. *)
Theorem main_completes_or_index_error (fs : filesystem) (lines : list string) :
  main fs lines = Raise IndexError \/ exists out, main fs lines = Ok out.
Proof.
  destruct (main fs lines) as [out|e] eqn:H.
  - right. now exists out.
  - left. now rewrite (main_raise_is_index_error fs lines e H).
Qed.

(** X6. The pass distributes over concatenation where the scan is outside
    every region: if two manifests are each passed to completion, their
    concatenation is passed to the concatenation of the outputs. *)
Theorem main_concat (fs : filesystem) (pre post o1 o2 : list string) :
  main fs pre = Ok o1 ->
  main fs post = Ok o2 ->
  main fs (pre ++ post) = Ok (o1 ++ o2).
Proof.
  destruct (main_generated fs) as (g & _ & _ & _ & Hmain).
  rewrite !Hmain. apply main_loop_app.
Qed.

Lemma main_concat_witness :
  main sample_fs (manifest [build_region] ++ manifest [sources_region])
  = Ok (patched sample_gen [build_region] ++ patched sample_gen [sources_region]).
Proof.
  apply (main_concat sample_fs); vm_compute; reflexivity.
Defined.

(** X7. A manifest in which no line carries the Begin PBXBuildFile, Begin
    PBXFileReference, End PBXGroup or sources-phase marker is written back
    unchanged, whatever files were discovered. *)
Theorem marker_free_unchanged (fs : filesystem) (lines : list string) :
  forallb (fun l => lacks begin_build_file l && lacks begin_file_ref l
                    && lacks end_group l && lacks sources_phase l) lines = true ->
  main fs lines = Ok lines.
Proof.
  intros H. destruct (main_generated fs) as (g & _ & _ & _ & Hmain).
  rewrite Hmain. apply main_loop_no_marker. exact H.
Qed.

Lemma marker_free_unchanged_witness :
  main sample_fs [ln "// !$*UTF8*$!"; ln "};"] = Ok [ln "// !$*UTF8*$!"; ln "};"].
Proof. apply (marker_free_unchanged sample_fs). reflexivity. Defined.

Lemma mode_after_not_file_refs m l :
  m <> InFileRefs -> lacks begin_file_ref l = true -> mode_after m l <> InFileRefs.
Proof.
  intros Hm Hl. unfold lacks in Hl. apply negb_true_iff in Hl.
  destruct m; simpl; rewrite ?Hl;
    repeat match goal with |- context [if ?c then _ else _] => destruct c end;
    congruence.
Qed.

Lemma spliced_outside_region g m lines out :
  spliced g m lines out ->
  m <> InFileRefs ->
  forallb (lacks begin_file_ref) lines = true ->
  subsequence lines out.
Proof.
  induction 1 as [|m l ls out _ _ _ IH|m l ls out Hd _ IH|m l new ls out _ _ IH];
    intros Hm Hno.
  - constructor.
  - simpl in Hno. apply andb_true_iff in Hno as [Hl Hno].
    constructor. apply IH; [now apply mode_after_not_file_refs|exact Hno].
  - destruct m; simpl in Hd; try discriminate. congruence.
  - simpl in Hno. apply andb_true_iff in Hno as [Hl Hno].
    apply subsequence_skip_many. constructor.
    apply IH; [now apply mode_after_not_file_refs|exact Hno].
Qed.

(** X8. If no line carries the Begin PBXFileReference marker, a completed
    run deletes nothing: the manifest is a subsequence of the output (folder
    references included), and the output is at least as long. *)
Theorem nothing_deleted_without_file_ref_region
    (fs : filesystem) (lines out : list string) :
  forallb (lacks begin_file_ref) lines = true ->
  main fs lines = Ok out ->
  subsequence lines out /\ List.length lines <= List.length out.
Proof.
  intros Hno H.
  destruct (main_generated fs) as (g & _ & _ & _ & Hmain).
  rewrite Hmain in H. apply main_loop_spliced in H.
  assert (Hsub : subsequence lines out)
    by (apply (spliced_outside_region g Outside lines out H); [discriminate|exact Hno]).
  split; [exact Hsub|].
  clear -Hsub. induction Hsub; simpl; lia.
Qed.

Lemma nothing_deleted_without_file_ref_region_witness :
  subsequence (manifest no_file_ref_segs) (patched sample_gen no_file_ref_segs)
  /\ List.length (manifest no_file_ref_segs)
     <= List.length (patched sample_gen no_file_ref_segs).
Proof.
  apply (nothing_deleted_without_file_ref_region sample_fs).
  - reflexivity.
  - vm_compute. reflexivity.
Defined.

(** X9. The outputs of [main] are characterised: a run on [lines] returns
    [out] exactly when [lines] splits into well-formed segments and [out]
    is, segment by segment, the segment with its fragments put immediately
    before its closing line (and the watched folder references of a
    file-reference region left out). *)
Theorem splice_characterised (fs : filesystem) :
  exists g,
    generate (files_to_add fs) = Ok g
    /\ forall lines out,
         main fs lines = Ok out
         <-> exists segs,
               forallb seg_ok segs = true
               /\ lines = manifest segs
               /\ out = patched g segs.
Proof.
  destruct (main_generated fs) as (g & Hg & Hkeys & _ & Hmain).
  exists g. split; [exact Hg|]. intros lines out. rewrite Hmain. split.
  - intros H. apply main_loop_inv in H as (segs & Hok & _ & -> & ->). eauto.
  - intros (segs & Hok & -> & ->). now apply main_loop_segments.
Qed.

Lemma sorted_unique a : forall b,
  StronglySorted le_name a -> StronglySorted le_name b ->
  Permutation a b -> a = b.
Proof.
  induction a as [|x a IH]; intros b Ha Hb P.
  - now apply Permutation_nil in P.
  - destruct b as [|y b]; [now apply Permutation_sym, Permutation_nil in P|].
    apply StronglySorted_inv in Ha as [Ha Hx].
    apply StronglySorted_inv in Hb as [Hb Hy].
    assert (Hxy : x = y).
    { assert (Hin1 : In x (y :: b)) by (apply (Permutation_in _ P); now left).
      assert (Hin2 : In y (x :: a)) by (apply (Permutation_in _ (Permutation_sym P)); now left).
      destruct Hin1 as [->|Hin1]; [reflexivity|].
      destruct Hin2 as [->|Hin2]; [reflexivity|].
      rewrite Forall_forall in Hx, Hy.
      apply String.leb_antisym; [apply Hx, Hin2|apply Hy, Hin1]. }
    subst y. f_equal. apply IH; auto. now apply Permutation_cons_inv in P.
Qed.

Lemma sorted_of_permutation a b : Permutation a b -> sorted a = sorted b.
Proof.
  intros P. apply sorted_unique; try apply sorted_sorted.
  rewrite !sorted_perm. exact P.
Qed.

(** X10. Discovery does not depend on the order in which a directory
    lists its entries: two file systems whose category directories hold
    the same entries, in any order, give the same list of files to add. *)
Theorem discovery_ignores_listing_order (fs fs' : filesystem) :
  (forall directory, same_entries (fs directory) (fs' directory)) ->
  files_to_add fs = files_to_add fs'.
Proof.
  intros H. unfold files_to_add, swift_files. f_equal.
  apply flat_map_ext. intros d. specialize (H d).
  destruct (fs d) as [| |e], (fs' d) as [| |e']; simpl in *; try contradiction; try reflexivity.
  f_equal. apply sorted_of_permutation. now apply filter_perm.
Qed.

Lemma discovery_ignores_listing_order_witness :
  files_to_add sample_fs = files_to_add reordered_fs.
Proof.
  apply (discovery_ignores_listing_order sample_fs reordered_fs).
  intros directory. unfold sample_fs, reordered_fs.
  destruct (String.eqb directory "Views"); simpl; [reflexivity|].
  destruct (String.eqb directory "Models"); simpl; [apply perm_swap|exact I].
Defined.

Lemma NoDup_tag {A} (d : string) (l : list A) :
  NoDup l -> NoDup (map (fun x => (d, x)) l).
Proof.
  induction 1 as [|x l Hx Hl IH]; simpl; constructor; [|exact IH].
  intros Hin. apply in_map_iff in Hin as (y & [= ->] & Hy). contradiction.
Qed.

Lemma NoDup_tagged {A} (f : string -> list A) ds :
  NoDup ds -> (forall d, NoDup (f d)) ->
  NoDup (flat_map (fun d => map (fun x => (d, x)) (f d)) ds).
Proof.
  intros Hds Hf. induction Hds as [|d ds Hd Hds IH]; simpl; [constructor|].
  apply NoDup_app.
  - apply NoDup_tag, Hf.
  - exact IH.
  - intros [d' x] H1 H2. apply in_map_iff in H1 as (x' & [= <- <-] & _).
    apply in_flat_map in H2 as (d'' & Hd'' & H2).
    apply in_map_iff in H2 as (x'' & [= <- _] & _). contradiction.
Qed.

(** X11. When no directory lists a name twice, no (category, name) pair
    occurs twice among the files to add. *)
Theorem discovery_no_duplicates (fs : filesystem) :
  (forall directory entries, fs directory = Dir entries -> NoDup entries) ->
  NoDup (files_to_add fs).
Proof.
  intros H. rewrite files_to_add_listing. apply NoDup_tagged.
  - unfold directories. repeat constructor; simpl; intuition discriminate.
  - intros d. unfold listing. destruct (fs d) as [| |entries] eqn:Hd; simpl; try constructor.
    apply NoDup_filter.
    apply (Permutation_NoDup (Permutation_sym (sorted_perm _))).
    apply NoDup_filter. exact (H d entries Hd).
Qed.

Lemma discovery_no_duplicates_witness : NoDup (files_to_add sample_fs).
Proof.
  apply (discovery_no_duplicates sample_fs).
  intros directory entries. unfold sample_fs.
  destruct (String.eqb directory "Views").
  - intros [= <-]. repeat constructor. simpl. tauto.
  - destruct (String.eqb directory "Models"); [|discriminate].
    intros [= <-]. repeat constructor; simpl; intuition discriminate.
Defined.

Lemma copy_until_cases marker ls :
  match snd (copy_until marker ls) with
  | [] => forallb (lacks marker) ls = true /\ after marker ls = None
  | _ :: r => forallb (lacks marker) ls = false /\ after marker ls = Some r
  end.
Proof.
  induction ls as [|l ls IH]; simpl; [auto|].
  assert (Hl : lacks marker l = negb (contains marker l)) by reflexivity.
  rewrite Hl. destruct (contains marker l); simpl; [auto|].
  destruct (copy_until marker ls) as [c r]. exact IH.
Qed.

Lemma copy_refs_until_cases ls :
  match snd (copy_refs_until ls) with
  | [] => forallb (lacks end_file_ref) ls = true
  | _ :: _ => forallb (lacks end_file_ref) ls = false
  end.
Proof.
  induction ls as [|l ls IH]; simpl; [auto|].
  assert (Hl : lacks end_file_ref l = negb (contains end_file_ref l)) by reflexivity.
  rewrite Hl. destruct (contains end_file_ref l); simpl; [auto|].
  destruct (copy_refs_until ls) as [c r]. destruct (is_folder_ref l); exact IH.
Qed.

Lemma step_raises g line rest :
  keys_ok g = true ->
  match step g line rest with
  | Ok _ => unclosed line rest = false
  | Raise e => e = IndexError /\ unclosed line rest = true
  end.
Proof.
  intros Hkeys. unfold step, unclosed.
  destruct (contains begin_build_file line).
  { pose proof (copy_until_cases end_build_file rest) as H.
    destruct (copy_until end_build_file rest) as [c [|e r]]; simpl in H; tauto. }
  destruct (contains begin_file_ref line).
  { pose proof (copy_refs_until_cases rest) as H.
    destruct (copy_refs_until rest) as [c [|e r]]; simpl in H; tauto. }
  destruct (contains end_group line).
  { rewrite (blocks_ok g Hkeys). reflexivity. }
  destruct (contains sources_phase line); [|reflexivity].
  pose proof (copy_until_cases files_open rest) as H.
  destruct (copy_until files_open rest) as [c [|f r]]; simpl in H.
  { destruct H as [_ ->]. auto. }
  destruct H as [_ ->].
  pose proof (copy_until_cases list_close r) as H.
  destruct (copy_until list_close r) as [c' [|e' r']]; simpl in H; tauto.
Qed.

Lemma main_loop_raises_iff g lines :
  keys_ok g = true ->
  main_loop g lines = Raise IndexError
  <-> exists segs line rest,
        forallb seg_ok segs = true
        /\ lines = manifest segs ++ line :: rest
        /\ unclosed line rest = true.
Proof.
  intros Hkeys. split.
  - induction lines as [|line rest IH] using lines_ind; intros H.
    + simp main_loop in H. discriminate.
    + rewrite main_loop_cons in H.
      pose proof (step_raises g line rest Hkeys) as Hs.
      destruct (step g line rest) as [[o rest']|e] eqn:Hstep.
      * destruct (step_inv _ _ _ _ _ Hstep) as (s & Hok & _ & Hl & _).
        unfold emit in H.
        destruct (main_loop g rest') as [o'|e'] eqn:Hrest; simpl in H; [discriminate|].
        injection H as ->.
        destruct (IH rest' (seg_lines_app_length _ _ _ _ Hl) Hrest)
          as (segs & l' & r' & Hsegs & -> & Hun).
        exists (s :: segs), l', r'. simpl. rewrite Hok, Hsegs.
        repeat split; [|exact Hun].
        unfold manifest. simpl. fold (manifest segs). now rewrite <- app_assoc.
      * exists [], line, rest. simpl. tauto.
  - intros (segs & line & rest & Hok & -> & Hun).
    induction segs as [|s segs IH].
    + simpl. rewrite main_loop_cons.
      pose proof (step_raises g line rest Hkeys) as Hs.
      destruct (step g line rest) as [[o rest']|e]; [congruence|].
      destruct Hs as [-> _]. reflexivity.
    + simpl in Hok. apply andb_true_iff in Hok as [Hs Hok].
      unfold manifest. simpl. fold (manifest segs). rewrite <- app_assoc.
      destruct (seg_lines_nonempty s) as (l & ls & Hl). rewrite Hl. simpl.
      rewrite main_loop_cons.
      rewrite (step_segment g s (manifest segs ++ line :: rest) l
                 (ls ++ manifest segs ++ line :: rest)); auto.
      * rewrite (IH Hok). reflexivity.
      * now rewrite Hl.
Qed.

(** X12. A run raises IndexError exactly when, after some well-formed
    segments, a line opens a region that the rest of the manifest does not
    close. *)
Theorem main_raises_iff_unclosed_region (fs : filesystem) (lines : list string) :
  main fs lines = Raise IndexError
  <-> exists segs line rest,
        forallb seg_ok segs = true
        /\ lines = manifest segs ++ line :: rest
        /\ unclosed line rest = true.
Proof.
  destruct (main_generated fs) as (g & _ & Hkeys & _ & Hmain).
  rewrite Hmain. now apply main_loop_raises_iff.
Qed.

Lemma ends_with_append suffix a b :
  ends_with suffix b = true -> ends_with suffix (a ++ b) = true.
Proof.
  intros H. apply ends_with_spec in H as (stem & ->).
  apply ends_with_spec. exists (a ++ stem)%string. symmetry. apply append_assoc.
Qed.

Ltac ends_nl := repeat apply ends_with_append; reflexivity.

Lemma file_ref_entry_nl a f : ends_with NL (file_ref_entry a f) = true.
Proof. unfold file_ref_entry. ends_nl. Qed.

Lemma build_file_entry_nl a b f : ends_with NL (build_file_entry a b f) = true.
Proof. unfold build_file_entry. ends_nl. Qed.

Lemma sources_entry_nl a f : ends_with NL (sources_entry a f) = true.
Proof. unfold sources_entry. ends_nl. Qed.

Lemma group_entry_nl a f : ends_with NL (group_entry a f) = true.
Proof. unfold group_entry. ends_nl. Qed.

Lemma spec_group_block_nl g d id :
  all_values (fun l => ends_with NL l = true) (group_entries g) ->
  forallb (ends_with NL) (spec_group_block g d id) = true.
Proof.
  intros Hall. unfold spec_group_block, children_of.
  destruct (dict_get d (group_entries g)) as [v|] eqn:Hv; [|reflexivity].
  pose proof (dict_get_all _ _ _ _ Hv Hall) as Hch.
  destruct v as [|x v]; [reflexivity|].
  rewrite !forallb_app.
  assert (Hvs : forallb (ends_with NL) (x :: v) = true).
  { apply forallb_forall. intros y Hy. rewrite Forall_forall in Hch. now apply Hch. }
  rewrite Hvs. cbn [forallb].
  repeat match goal with
         | |- context [ends_with NL (?a ++ ?b)] =>
             replace (ends_with NL (a ++ b)) with true by (symmetry; ends_nl)
         end.
  reflexivity.
Qed.

Lemma spliced_forall (P : string -> Prop) g m lines out :
  spliced g m lines out ->
  Forall P (build_file_entries g) -> Forall P (file_ref_entries g) ->
  Forall P (blocks g) -> Forall P (sources_entries g) ->
  Forall P lines -> Forall P out.
Proof.
  intros H HB HR HG HS.
  induction H as [|m l ls out _ _ H IH|m l ls out _ H IH|m l new ls out Hinj H IH];
    intros Hl.
  - constructor.
  - inversion Hl; subst. constructor; auto.
  - inversion Hl; subst. auto.
  - inversion Hl; subst. apply Forall_app. split.
    + destruct m; simpl in Hinj;
        repeat match type of Hinj with
               | (if ?c then _ else _) = _ => destruct c
               end;
        try discriminate; injection Hinj as <-; assumption.
    + constructor; auto.
Qed.

(** X13. If every line of the manifest ends with a newline, so does every
    line of the output of a completed run: every inserted line ends with
    one. *)
Theorem newlines_preserved (fs : filesystem) (lines out : list string) :
  forallb (ends_with NL) lines = true ->
  main fs lines = Ok out ->
  forallb (ends_with NL) out = true.
Proof.
  intros Hnl H.
  destruct (main_generated fs) as (g & Hg & _ & Hk & Hmain).
  rewrite Hmain in H. apply main_loop_spliced in H.
  destruct (generate_spec _ (files_to_add_directories fs))
    as (g' & Hg' & _ & _ & _ & Hf & Hb & Hs).
  assert (g' = g) by congruence. subst g'.
  rewrite forallb_forall in Hnl. apply forallb_forall. apply Forall_forall.
  apply (spliced_forall (fun l => ends_with NL l = true) g Outside lines out H).
  - rewrite Hb. apply Forall_forall. intros x Hx.
    apply in_map_iff in Hx as (cf & <- & _). apply build_file_entry_nl.
  - rewrite Hf. apply Forall_forall. intros x Hx.
    apply in_map_iff in Hx as (cf & <- & _). apply file_ref_entry_nl.
  - rewrite (blocks_spec g Hk).
    assert (Hall : all_values (fun l => ends_with NL l = true) (group_entries g)).
    { apply (gen_loop_group_all _ (files_to_add fs) gen_init g Hg).
      - apply Forall_forall. intros file _ c. apply group_entry_nl.
      - unfold all_values. simpl. repeat constructor. }
    apply Forall_forall. apply forallb_forall.
    unfold spec_group_blocks. rewrite !forallb_app, !spec_group_block_nl; auto.
  - rewrite Hs. apply Forall_forall. intros x Hx.
    apply in_map_iff in Hx as (cf & <- & _). apply sources_entry_nl.
  - apply Forall_forall. exact Hnl.
Qed.

Lemma newlines_preserved_witness :
  forallb (ends_with NL) (patched sample_gen sample_segs) = true.
Proof.
  apply (newlines_preserved sample_fs (manifest sample_segs)).
  - reflexivity.
  - vm_compute. reflexivity.
Defined.

(** X14. On a manifest made of well-formed segments the output has the
    lines of the input, plus one copy of the matching fragment list for
    every build-file region, file-reference region, End PBXGroup line and
    sources phase, minus the folder references dropped. *)
Theorem line_count_law (fs : filesystem) (segs : list segment) :
  forallb seg_ok segs = true ->
  exists g out,
    generate (files_to_add fs) = Ok g
    /\ main fs (manifest segs) = Ok out
    /\ List.length out + List.length (dropped segs)
       = List.length (manifest segs)
         + occurrences is_build_files segs * List.length (build_file_entries g)
         + occurrences is_file_refs segs * List.length (file_ref_entries g)
         + occurrences is_group_end segs * List.length (spec_group_blocks g)
         + occurrences is_sources segs * List.length (sources_entries g).
Proof.
  intros Hok.
  destruct (main_segments fs segs Hok) as (g & Hg & Hk & Hmain).
  exists g, (patched g segs). repeat split; try assumption.
  rewrite patched_length, inserted_length, (blocks_spec g Hk). lia.
Qed.

Lemma line_count_law_witness :
  exists g out,
    generate (files_to_add sample_fs) = Ok g
    /\ main sample_fs (manifest sample_segs) = Ok out
    /\ List.length out + List.length (dropped sample_segs)
       = List.length (manifest sample_segs)
         + occurrences is_build_files sample_segs * List.length (build_file_entries g)
         + occurrences is_file_refs sample_segs * List.length (file_ref_entries g)
         + occurrences is_group_end sample_segs * List.length (spec_group_blocks g)
         + occurrences is_sources sample_segs * List.length (sources_entries g).
Proof. apply (line_count_law sample_fs sample_segs). reflexivity. Defined.

Lemma seg_output_twice_gen_init s :
  seg_output_twice gen_init s = seg_output gen_init s.
Proof. destruct s; reflexivity. Qed.

(** X15. With no file to add the pass is idempotent: a second run on the
    output of a completed run returns that output. *)
Theorem empty_run_idempotent (fs : filesystem) (lines out : list string) :
  files_to_add fs = [] ->
  main fs lines = Ok out ->
  main fs out = Ok out.
Proof.
  intros Hnone H. unfold main in *. rewrite Hnone in *. simpl in *.
  apply main_loop_inv in H as (segs & Hok & _ & -> & ->).
  destruct (resegment_all gen_init eq_refl segs Hok) as (Hok2 & Hm2 & Hp2).
  rewrite <- Hm2 at 1.
  rewrite (main_loop_segments gen_init _ Hok2 (fun _ => eq_refl)).
  rewrite Hp2. unfold patched.
  now rewrite (flat_map_ext _ _ seg_output_twice_gen_init).
Qed.

Lemma empty_run_idempotent_witness :
  main empty_fs (flat_map seg_kept sample_segs) = Ok (flat_map seg_kept sample_segs).
Proof.
  apply (empty_run_idempotent empty_fs (manifest sample_segs)).
  - reflexivity.
  - vm_compute. reflexivity.
Defined.
